(** * AI-Toolbox: the MDP Experience table and the Utils/Core helpers

    A shallow embedding of [include/AIToolbox/MDP/Experience.hpp] and of
    [Utils/Core.hpp].

    - [double] is IEEE binary64, modelled by the executable specification
      [spec_float] of the Standard Library (precision 53, emax 1024);
    - [unsigned long] is a 64-bit unsigned integer, modelled by [Z] with
      its wrap-around written out;
    - a [boost::multi_array] of rank 3 (rank 2) is a list of lists of
      lists (a list of lists), read and written by index;
    - a templated external container is anything that answers three
      chained [operator[]], that is a function of three indices. *)

From Stdlib Require Import ZArith List Bool Lia.
From Stdlib Require Import Floats.SpecFloat.
From stdpp Require Import base list.

Local Open Scope Z_scope.

(** ** IEEE binary64 *)

Module Double.

Definition prec : Z := 53.
Definition emax : Z := 1024.

Definition double := spec_float.

Definition sub : double -> double -> double := SFsub prec emax.
Definition add : double -> double -> double := SFadd prec emax.
Definition mul : double -> double -> double := SFmul prec emax.
Definition div : double -> double -> double := SFdiv prec emax.
Definition fabs : double -> double := SFabs.
Definition ltb : double -> double -> bool := SFltb.
Definition leb : double -> double -> bool := SFleb.
Definition eqb : double -> double -> bool := SFeqb.

(** [std::numeric_limits<double>::epsilon()], 2^-52. *)
Definition epsilon : double := S754_finite false 4503599627370496 (-104).

(** The [int] literal [5] converted to [double]. *)
Definition five : double := S754_finite false 5629499534213120 (-50).

Definition zero : double := S754_zero false.
Definition one : double := S754_finite false 4503599627370496 (-52).

(** 2^53, the first double whose successor is two away. *)
Definition two53 : double := S754_finite false 4503599627370496 1.

(** [std::min(a, b)] is [(b < a) ? b : a]. *)
Definition min (a b : double) : double := if ltb b a then b else a.

Definition is_nan (x : double) : bool :=
  match x with S754_nan => true | _ => false end.

Definition is_finite (x : double) : bool :=
  match x with S754_zero _ | S754_finite _ _ _ => true | _ => false end.

End Double.

Import Double.

(** ** Unsigned 64-bit arithmetic ([unsigned long], [size_t]) *)

Module U64.

Definition modulus : Z := 2 ^ 64.

Definition wrap (x : Z) : Z := x mod modulus.

(** [x + y] on [unsigned long]: the sum modulo 2^64. *)
Definition add (x y : Z) : Z := wrap (x + y).

Definition in_range (x : Z) : bool := (0 <=? x) && (x <? modulus).

End U64.

(** ** Element types of the templates

    [veccmp] and [sequential_sorted_contains] are templates: all they ask
    of the element type is [operator<], [operator>] and [operator==]. *)

Class Ordered (T : Type) := {
  op_lt : T -> T -> bool;
  op_gt : T -> T -> bool;
  op_eq : T -> T -> bool
}.

(** What the comparison operators of every arithmetic type satisfy,
    [double] with its NaN included. *)
Class OrderedLaws (T : Type) `{Ordered T} : Prop := {
  op_gt_lt : forall a b : T, op_gt a b = op_lt b a;
  op_lt_asym : forall a b : T, op_lt a b = true -> op_lt b a = false;
  op_eq_not_lt : forall a b : T, op_eq a b = true -> op_lt a b = false
}.

(** The integer types on top of that: [==] is equality and [<] is a
    strict total order. *)
Class TotalOrderLaws (T : Type) `{Ordered T} : Prop := {
  total_laws :: OrderedLaws T;
  op_eq_true : forall a b : T, op_eq a b = true <-> a = b;
  op_lt_trans : forall a b c : T,
    op_lt a b = true -> op_lt b c = true -> op_lt a c = true;
  op_lt_total : forall a b : T,
    op_lt a b = false -> op_eq a b = false -> op_lt b a = true
}.

#[export] Instance Z_Ordered : Ordered Z :=
  {| op_lt := Z.ltb; op_gt := Z.gtb; op_eq := Z.eqb |}.

#[export] Instance double_Ordered : Ordered double :=
  {| op_lt := Double.ltb; op_gt := fun a b => Double.ltb b a; op_eq := Double.eqb |}.

(** ** Loops

    [for (size_t i = 0; i < n; ++i) body(i)] over a state [St]. *)
Definition for_range {St : Type} (n : nat) (body : nat -> St -> St) (st : St) : St :=
  foldl (fun st i => body i st) st (seq 0 n).

(** ** Tables

    Reading or writing a [multi_array] outside its extents is undefined
    behaviour in the source.  In the model a read outside the extents
    finds nothing and a write outside them changes nothing; the theorems
    are stated for tables of the right shape and indices within it. *)

Definition at2 {T : Type} (t : list (list T)) (i j : nat) : option T :=
  row ← t !! i; row !! j.

Definition at3 {T : Type} (t : list (list (list T))) (i j k : nat) : option T :=
  plane ← t !! i; at2 plane j k.

(** [t[i][j] = f(t[i][j])] and [t[i][j][k] = f(t[i][j][k])]. *)
Definition upd2 {T : Type} (f : T -> T) (i j : nat) (t : list (list T)) : list (list T) :=
  alter (alter f j) i t.

Definition upd3 {T : Type} (f : T -> T) (i j k : nat) (t : list (list (list T)))
  : list (list (list T)) :=
  alter (upd2 f j k) i t.

(** Shape [d1 x d2] and [d1 x d2 x d3]. *)
Definition shape2 {T : Type} (d1 d2 : nat) (t : list (list T)) : bool :=
  Nat.eqb (length t) d1 && forallb (fun row => Nat.eqb (length row) d2) t.

Definition shape3 {T : Type} (d1 d2 d3 : nat) (t : list (list (list T))) : bool :=
  Nat.eqb (length t) d1 && forallb (shape2 d2 d3) t.

(** ** Utils/Core.hpp *)

(** [copyTable3D]: [out[i][j][x] = in[i][j][x]] for every index below the
    three given dimensions.  The input container is whatever answers
    [in[i][j][x]]. *)
Definition copyTable3D {T : Type} (inp : nat -> nat -> nat -> T)
    (out : list (list (list T))) (d1 d2 d3 : nat) : list (list (list T)) :=
  for_range d1 (fun i =>
    for_range d2 (fun j =>
      for_range d3 (fun x out => upd3 (fun _ => inp i j x) i j x out))) out.

(** [checkEqualSmall]: [fabs(a - b) <= 5 * epsilon]. *)
Definition checkEqualSmall (a b : double) : bool :=
  leb (fabs (sub a b)) (mul five epsilon).

Definition checkDifferentSmall (a b : double) : bool :=
  negb (checkEqualSmall a b).

(** [checkEqualGeneral]: the small check first, then the relative one. *)
Definition checkEqualGeneral (a b : double) : bool :=
  if checkEqualSmall a b then true
  else ltb (div (fabs (sub a b)) (Double.min (fabs a) (fabs b))) epsilon.

Definition checkDifferentGeneral (a b : double) : bool :=
  negb (checkEqualGeneral a b).

(** [veccmp]: the loop [for (i = 0; i < lhs.size(); ++i)], started at
    index [i] with [n] iterations left. *)
Fixpoint veccmp_from {T : Type} `{Ordered T} (lhs rhs : list T) (i n : nat) : Z :=
  match n with
  | O => 0
  | S n' =>
      match lhs !! i, rhs !! i with
      | Some x, Some y =>
          if op_gt x y then 1
          else if op_lt x y then -1
          else veccmp_from lhs rhs (S i) n'
      | _, _ => 0
      end
  end.

(** Index [j] does not tell the two vectors apart. *)
Definition agree_at {T : Type} `{Ordered T} (a b : list T) (j : nat) : Prop :=
  forall x y, a !! j = Some x -> b !! j = Some y ->
    op_gt x y = false /\ op_lt x y = false.

(** [assert(lhs.size() == rhs.size())] fails on vectors of different
    sizes: no result then. *)
Definition veccmp {T : Type} `{Ordered T} (lhs rhs : list T) : option Z :=
  if Nat.eqb (length lhs) (length rhs)
  then Some (veccmp_from lhs rhs 0 (length lhs))
  else None.

(** [operator<] and [operator>] on [Vector]. *)
Definition Vector_lt (lhs rhs : list double) : option bool :=
  r ← veccmp lhs rhs; Some (r <? 0).

Definition Vector_gt (lhs rhs : list double) : option bool :=
  r ← veccmp lhs rhs; Some (r >? 0).

(** [sequential_sorted_contains]: the range-for over [v]. *)
Fixpoint sequential_sorted_contains {T : Type} `{Ordered T} (v : list T) (elem : T) : bool :=
  match v with
  | [] => false
  | e :: v' =>
      if op_lt e elem then sequential_sorted_contains v' elem
      else if op_eq e elem then true
      else false
  end.

(** Sorted in ascending order: no element is less than its predecessor. *)
Fixpoint sorted_ascending {T : Type} `{Ordered T} (v : list T) : bool :=
  match v with
  | [] => true
  | x :: v' =>
      match v' with
      | [] => true
      | y :: _ => negb (op_lt y x) && sorted_ascending v'
      end
  end.

(** ** MDP/Experience.hpp *)

Abbreviation VisitTable := (list (list (list Z))).
Abbreviation VisitSumTable := (list (list Z)).
Abbreviation RewardTable := (list (list (list double))).
Abbreviation RewardSumTable := (list (list double)).

(** The members of [class Experience]; [getS] and [getA] read [S] and [A]. *)
Record Experience := mkExperience {
  getS : nat;
  getA : nat;
  visits_ : VisitTable;
  visitsSum_ : VisitSumTable;
  rewards_ : RewardTable;
  rewardsSum_ : RewardSumTable
}.

(** The value read at [t[s][a][s1]] and at [t[s][a]]. *)
Definition read3 {T : Type} (d : T) (t : list (list (list T))) (s a s1 : nat) : T :=
  default d (at3 t s a s1).

Definition read2 {T : Type} (d : T) (t : list (list T)) (s a : nat) : T :=
  default d (at2 t s a).

(** [Experience::setVisits]. *)
Definition setVisits (v : nat -> nat -> nat -> Z) (e : Experience) : Experience :=
  let S := getS e in
  let A := getA e in
  let visits' := copyTable3D v (visits_ e) S A S in
  let visitsSum' :=
    for_range S (fun s =>
      for_range A (fun a =>
        for_range S (fun s1 vs =>
          upd2 (fun x => U64.add x (read3 0 visits' s a s1)) s a vs)))
      (visitsSum_ e) in
  {| getS := S; getA := A;
     visits_ := visits'; visitsSum_ := visitsSum';
     rewards_ := rewards_ e; rewardsSum_ := rewardsSum_ e |}.

(** [Experience::setRewards]. *)
Definition setRewards (r : nat -> nat -> nat -> double) (e : Experience) : Experience :=
  let S := getS e in
  let A := getA e in
  let rewards' := copyTable3D r (rewards_ e) S A S in
  let rewardsSum' :=
    for_range S (fun s =>
      for_range A (fun a =>
        for_range S (fun s1 rs =>
          upd2 (fun x => Double.add x (read3 Double.zero rewards' s a s1)) s a rs)))
      (rewardsSum_ e) in
  {| getS := S; getA := A;
     visits_ := visits_ e; visitsSum_ := visitsSum_ e;
     rewards_ := rewards'; rewardsSum_ := rewardsSum' |}.

(** The loop nest that [setVisits] and [setRewards] both end with:
    [m[s][a] += c[s][a][s1]] for every [s], [a] and [s1]. *)
Definition marginal_loop {T : Type} (plus : T -> T -> T) (c : nat -> nat -> nat -> T)
    (dS dA : nat) (m : list (list T)) : list (list T) :=
  for_range dS (fun s =>
    for_range dA (fun a =>
      for_range dS (fun s1 m' => upd2 (fun x => plus x (c s a s1)) s a m'))) m.

(** Modelled from the spec: the constructor [Experience(s, a)], declared in
    the header and defined in Experience.cpp, which is not part of the
    sources at hand.  All four tables are allocated to shape [S x A x S]
    and [S x A] and zero-initialised. *)
Definition construct (s a : nat) : Experience :=
  {| getS := s; getA := a;
     visits_ := replicate s (replicate a (replicate s 0));
     visitsSum_ := replicate s (replicate a 0);
     rewards_ := replicate s (replicate a (replicate s Double.zero));
     rewardsSum_ := replicate s (replicate a Double.zero) |}.

(** Modelled from the spec: [Experience::record], declared in the header
    and defined in Experience.cpp.  It increments [visits[s][a][s1]] and
    [visitsSum[s][a]] by one and adds the reward to [rewards[s][a][s1]]
    and to [rewardsSum[s][a]]. *)
Definition record (s a s1 : nat) (rew : double) (e : Experience) : Experience :=
  {| getS := getS e; getA := getA e;
     visits_ := upd3 (fun x => U64.add x 1) s a s1 (visits_ e);
     visitsSum_ := upd2 (fun x => U64.add x 1) s a (visitsSum_ e);
     rewards_ := upd3 (fun x => Double.add x rew) s a s1 (rewards_ e);
     rewardsSum_ := upd2 (fun x => Double.add x rew) s a (rewardsSum_ e) |}.

(** Modelled from the spec: [Experience::reset], declared in the header
    and defined in Experience.cpp.  It sets every cell of the four tables
    to zero. *)
Definition reset (e : Experience) : Experience :=
  {| getS := getS e; getA := getA e;
     visits_ := map (map (map (fun _ => 0))) (visits_ e);
     visitsSum_ := map (map (fun _ => 0)) (visitsSum_ e);
     rewards_ := map (map (map (fun _ => Double.zero))) (rewards_ e);
     rewardsSum_ := map (map (fun _ => Double.zero)) (rewardsSum_ e) |}.

(** The read accessors. *)
Definition getVisits (e : Experience) (s a s1 : nat) : Z := read3 0 (visits_ e) s a s1.
Definition getVisitsSum (e : Experience) (s a : nat) : Z := read2 0 (visitsSum_ e) s a.
Definition getReward (e : Experience) (s a s1 : nat) : double :=
  read3 Double.zero (rewards_ e) s a s1.
Definition getRewardSum (e : Experience) (s a : nat) : double :=
  read2 Double.zero (rewardsSum_ e) s a.
Definition getVisitTable (e : Experience) : VisitTable := visits_ e.
Definition getRewardTable (e : Experience) : RewardTable := rewards_ e.

(** The tables have the shape the constructor gave them and the counters
    are 64-bit values. *)
Definition wf_Experience (e : Experience) : bool :=
  shape3 (getS e) (getA e) (getS e) (visits_ e)
  && shape2 (getS e) (getA e) (visitsSum_ e)
  && shape3 (getS e) (getA e) (getS e) (rewards_ e)
  && shape2 (getS e) (getA e) (rewardsSum_ e)
  && forallb (forallb (forallb U64.in_range)) (visits_ e)
  && forallb (forallb U64.in_range) (visitsSum_ e).

(** The row [t[s][a]], over which the marginals sum. *)
Definition row3 {T : Type} (t : list (list (list T))) (s a : nat) : list T :=
  default [] (at2 t s a).

(** The sum over the last axis, accumulated from zero by increasing [s1]
    in the arithmetic of the cell type. *)
Definition sumU (l : list Z) : Z := foldl U64.add 0 l.
Definition sumD (l : list double) : double := foldl Double.add Double.zero l.

(** An external container that holds the contents of a table. *)
Definition container_of {T : Type} (d : T) (t : list (list (list T))) : nat -> nat -> nat -> T :=
  fun s a s1 => read3 d t s a s1.

(** The sum of a row as an integer, before any wrap-around. *)
Definition sumZ (l : list Z) : Z := foldr Z.add 0 l.

(** ** Sequences of operations on a table *)

Inductive Op :=
  | OpRecord (s a s1 : nat) (rew : double)
  | OpReset
  | OpSetVisits (v : nat -> nat -> nat -> Z)
  | OpSetRewards (r : nat -> nat -> nat -> double).

Definition apply_op (e : Experience) (op : Op) : Experience :=
  match op with
  | OpRecord s a s1 rew => record s a s1 rew e
  | OpReset => reset e
  | OpSetVisits v => setVisits v e
  | OpSetRewards r => setRewards r e
  end.

Definition run (ops : list Op) (e : Experience) : Experience :=
  foldl apply_op e ops.

(** [record] is called with indices within the table. *)
Definition valid_op (S A : nat) (op : Op) : bool :=
  match op with
  | OpRecord s a s1 _ => (s <? S)%nat && (a <? A)%nat && (s1 <? S)%nat
  | _ => true
  end.

Definition is_import (op : Op) : bool :=
  match op with
  | OpSetVisits _ | OpSetRewards _ => true
  | _ => false
  end.

(** The rewards recorded for [(s, a)] since the last reset, added up in
    the order they were recorded. *)
Definition recorded_total (ops : list Op) (s a : nat) : double :=
  foldl (fun acc op =>
    match op with
    | OpRecord s' a' _ rew =>
        if (s' =? s)%nat && (a' =? a)%nat then Double.add acc rew else acc
    | OpReset => Double.zero
    | _ => acc
    end) Double.zero ops.

(** Both marginal tables hold the sums over the last axis. *)
Definition marginals_consistent (e : Experience) : Prop :=
  forall s a : nat, (s < getS e)%nat -> (a < getA e)%nat ->
    getVisitsSum e s a = sumU (row3 (visits_ e) s a) /\
    getRewardSum e s a = sumD (row3 (rewards_ e) s a).

(** The visit marginal alone. *)
Definition visits_consistent (e : Experience) : Prop :=
  forall s a : nat, (s < getS e)%nat -> (a < getA e)%nat ->
    getVisitsSum e s a = sumU (row3 (visits_ e) s a).

(** * Properties *)

(** ** IEEE binary64 comparisons and subtraction *)

(** The constants are doubles, [epsilon] is the distance from 1.0 to the
    next double, and [5 * epsilon] is computed without rounding. *)
Lemma double_constants :
  valid_binary prec emax epsilon = true
  /\ valid_binary prec emax five = true
  /\ valid_binary prec emax one = true
  /\ valid_binary prec emax two53 = true
  /\ sub (SFsucc prec emax one) one = epsilon
  /\ add (add (add (add one one) one) one) one = five
  /\ mul five epsilon = S754_finite false 5629499534213120 (-102).
Proof. vm_compute. auto 10. Qed.

Lemma SFabs_binary_round_aux p e s s' m ex l :
  SFabs (binary_round_aux p e s m ex l) = SFabs (binary_round_aux p e s' m ex l).
Proof.
  unfold binary_round_aux.
  destruct (shr_fexp p e m ex l) as [mrs' e'].
  destruct (shr_fexp p e _ e' loc_Exact) as [mrs'' e''].
  destruct (shr_m mrs''); [reflexivity | | reflexivity].
  destruct (Z.leb e'' (Z.sub e p)); reflexivity.
Qed.

Lemma SFabs_binary_normalize p e m ex sz :
  SFabs (binary_normalize p e (- m) ex sz) = SFabs (binary_normalize p e m ex sz).
Proof.
  destruct m as [|q|q]; simpl; [reflexivity| |]; unfold binary_round;
    destruct (shl_align q ex _); apply SFabs_binary_round_aux.
Qed.

Lemma fabs_sub_comm (a b : double) : fabs (sub a b) = fabs (sub b a).
Proof.
  destruct a as [sa|sa| |sa ma ea], b as [sb|sb| |sb mb eb];
    try (destruct sa, sb; reflexivity); try reflexivity.
  unfold fabs, sub, SFsub.
  rewrite (Z.min_comm eb ea).
  rewrite <- SFabs_binary_normalize. f_equal. f_equal. lia.
Qed.

Lemma SFcompare_antisym (x y : double) :
  SFcompare y x = option_map CompOpp (SFcompare x y).
Proof.
  destruct x as [sx|sx| |sx mx ex], y as [sy|sy| |sy my ey];
    try (destruct sx; reflexivity); try (destruct sy; reflexivity);
    try (destruct sx, sy; reflexivity); try reflexivity.
  simpl. rewrite (Z.compare_antisym ex ey).
  assert (Hc : CompOpp (PosDef.Pos.compare_cont Eq mx my) = PosDef.Pos.compare_cont Eq my mx)
    by exact (Pos.compare_cont_antisym mx my Eq).
  destruct sx, sy; simpl; try reflexivity; destruct (ex ?= ey); simpl; try reflexivity;
    rewrite <- Hc, ?CompOpp_involutive; reflexivity.
Qed.

Lemma ltb_asym (x y : double) : ltb x y = true -> ltb y x = false.
Proof.
  unfold ltb, SFltb. rewrite (SFcompare_antisym x y).
  destruct (SFcompare x y) as [[]|]; simpl; congruence.
Qed.

Lemma ltb_leb_false (x y : double) : ltb x y = true -> leb y x = false.
Proof.
  unfold ltb, leb, SFltb, SFleb. rewrite (SFcompare_antisym x y).
  destruct (SFcompare x y) as [[]|]; simpl; congruence.
Qed.

(** Two absolute values that compare equal are the same float. *)
Lemma fabs_compare_Eq (x y : double) :
  SFcompare (fabs x) (fabs y) = Some Eq -> fabs x = fabs y.
Proof.
  destruct x as [sx|sx| |sx mx ex], y as [sy|sy| |sy my ey]; simpl; try congruence.
  destruct (ex ?= ey) eqn:He; try congruence.
  intros Hm. apply Z.compare_eq in He. subst ey.
  injection Hm as Hm. apply (Pos.compare_eq mx my) in Hm. now subst.
Qed.

Lemma fabs_nan (x : double) : is_nan (fabs x) = is_nan x.
Proof. now destruct x. Qed.

(** [std::min] of two absolute values does not depend on the order of
    its arguments, as long as neither is a NaN. *)
Lemma min_fabs_comm (a b : double) :
  is_nan a = false -> is_nan b = false ->
  Double.min (fabs a) (fabs b) = Double.min (fabs b) (fabs a).
Proof.
  intros Ha Hb. unfold Double.min, ltb, SFltb.
  rewrite (SFcompare_antisym (fabs b) (fabs a)).
  destruct (SFcompare (fabs b) (fabs a)) as [[]|] eqn:Hc; simpl; try reflexivity.
  - symmetry. now apply fabs_compare_Eq.
  - destruct a, b; simpl in *; congruence.
Qed.

Lemma sub_nan_l (a b : double) : is_nan a = true -> sub a b = S754_nan.
Proof. destruct a; simpl; try discriminate. reflexivity. Qed.

Lemma sub_nan_r (a b : double) : is_nan b = true -> sub a b = S754_nan.
Proof. destruct b; simpl; try discriminate. now destruct a. Qed.

Lemma checkEqualSmall_sym (a b : double) : checkEqualSmall a b = checkEqualSmall b a.
Proof. unfold checkEqualSmall. now rewrite fabs_sub_comm. Qed.

Lemma checkEqualGeneral_nan (a b : double) :
  sub a b = S754_nan -> checkEqualGeneral a b = false.
Proof. intros H. unfold checkEqualGeneral, checkEqualSmall. rewrite H. reflexivity. Qed.

(** C7: [checkEqualGeneral] is symmetric, for every pair of doubles (NaNs,
    infinities and signed zeros included): [checkEqualGeneral(a, b)] equals
    [checkEqualGeneral(b, a)], where [checkEqualGeneral(a, b)] is true when
    [|a - b| <= 5 * epsilon] and otherwise true exactly when
    [|a - b| / min(|a|, |b|) < epsilon]. *)
Theorem checkEqualGeneral_symmetric (a b : double) :
  checkEqualGeneral a b = checkEqualGeneral b a
  /\ checkEqualGeneral a b =
     (leb (fabs (sub a b)) (mul five epsilon)
      || ltb (div (fabs (sub a b)) (Double.min (fabs a) (fabs b))) epsilon).
Proof.
  split; [|reflexivity].
  destruct (is_nan a) eqn:Ha.
  { rewrite !checkEqualGeneral_nan; auto using sub_nan_l, sub_nan_r. }
  destruct (is_nan b) eqn:Hb.
  { rewrite !checkEqualGeneral_nan; auto using sub_nan_l, sub_nan_r. }
  unfold checkEqualGeneral.
  rewrite (checkEqualSmall_sym b a), (fabs_sub_comm b a), (min_fabs_comm b a) by assumption.
  reflexivity.
Qed.

(** C9: [checkEqualGeneral] is total also when [min(|a|, |b|)] is zero.
    For [a] a zero of either sign and every finite [b] with
    [|b| > 5 * epsilon], the divisor [min(|a|, |b|)] is zero, the quotient
    [|a - b| / min(|a|, |b|)] is plus infinity, and the function returns
    false. *)
Theorem checkEqualGeneral_zero_divisor (sz : bool) (b : double) :
  is_finite b = true -> ltb (mul five epsilon) (fabs b) = true ->
  Double.min (fabs (S754_zero sz)) (fabs b) = S754_zero false
  /\ div (fabs (sub (S754_zero sz) b)) (Double.min (fabs (S754_zero sz)) (fabs b))
     = S754_infinity false
  /\ checkEqualGeneral (S754_zero sz) b = false.
Proof.
  intros Hf Hb. destruct b as [sb|sb| |sb mb eb]; try discriminate Hf.
  - destruct sb; vm_compute in Hb; discriminate Hb.
  - split_and!; try reflexivity.
    unfold checkEqualGeneral, checkEqualSmall.
    change (fabs (sub (S754_zero sz) (S754_finite sb mb eb))) with (S754_finite false mb eb).
    change (fabs (S754_finite sb mb eb)) with (S754_finite false mb eb) in *.
    rewrite (ltb_leb_false _ _ Hb). reflexivity.
Qed.

Lemma checkEqualGeneral_zero_divisor_witness :
  div (fabs (sub zero one)) (Double.min (fabs zero) (fabs one)) = S754_infinity false
  /\ checkEqualGeneral zero one = false.
Proof.
  destruct (checkEqualGeneral_zero_divisor false one) as (_ & Hd & Hr);
    [reflexivity | reflexivity |].
  exact (conj Hd Hr).
Defined.

(** ** The comparison operators of [int] and [double] *)

#[export] Instance Z_OrderedLaws : OrderedLaws Z.
Proof.
  split; simpl; intros a b.
  - rewrite Z.gtb_ltb. reflexivity.
  - rewrite !Z.ltb_lt, Z.ltb_ge. lia.
  - rewrite Z.eqb_eq, Z.ltb_ge. lia.
Qed.

#[export] Instance Z_TotalOrderLaws : TotalOrderLaws Z.
Proof.
  split; simpl.
  - exact Z_OrderedLaws.
  - intros a b. apply Z.eqb_eq.
  - intros a b c. rewrite !Z.ltb_lt. lia.
  - intros a b. rewrite Z.ltb_ge, Z.eqb_neq, Z.ltb_lt. lia.
Qed.

#[export] Instance double_OrderedLaws : OrderedLaws double.
Proof.
  split; simpl; intros a b.
  - reflexivity.
  - apply ltb_asym.
  - unfold Double.eqb, Double.ltb, SFeqb, SFltb.
    destruct (SFcompare a b) as [[]|]; congruence.
Qed.

(** ** veccmp *)

Section Veccmp.
Context {T : Type} `{OrderedLaws T}.

Lemma op_lt_irrefl (x : T) : op_lt x x = false.
Proof.
  destruct (op_lt x x) eqn:E; [|reflexivity].
  pose proof (op_lt_asym _ _ E). congruence.
Qed.

Lemma op_gt_irrefl (x : T) : op_gt x x = false.
Proof. rewrite op_gt_lt. apply op_lt_irrefl. Qed.

Lemma veccmp_from_antisym (a b : list T) (n i : nat) :
  veccmp_from b a i n = - veccmp_from a b i n.
Proof.
  revert i. induction n as [|n IH]; intros i; simpl; [reflexivity|].
  destruct (a !! i) as [x|], (b !! i) as [y|]; try reflexivity.
  rewrite (op_gt_lt y x), (op_gt_lt x y).
  destruct (op_lt x y) eqn:Hxy.
  - rewrite (op_lt_asym _ _ Hxy). reflexivity.
  - destruct (op_lt y x); [reflexivity | apply IH].
Qed.

Lemma veccmp_from_refl (v : list T) (n i : nat) : veccmp_from v v i n = 0.
Proof.
  revert i. induction n as [|n IH]; intros i; simpl; [reflexivity|].
  destruct (v !! i) as [x|]; [|reflexivity].
  rewrite op_gt_irrefl, op_lt_irrefl. apply IH.
Qed.

(** What the scan from index [i] returns: [1] or [-1] at the first index
    that tells the vectors apart, [0] when there is none. *)
Lemma veccmp_from_scan (a b : list T) (n i : nat) :
  (i + n = length a)%nat -> length a = length b ->
  (veccmp_from a b i n = 1 /\
     exists k x y, (i <= k)%nat /\ a !! k = Some x /\ b !! k = Some y /\
       (forall j, (i <= j < k)%nat -> agree_at a b j) /\ op_gt x y = true)
  \/ (veccmp_from a b i n = -1 /\
     exists k x y, (i <= k)%nat /\ a !! k = Some x /\ b !! k = Some y /\
       (forall j, (i <= j < k)%nat -> agree_at a b j) /\ op_lt x y = true)
  \/ (veccmp_from a b i n = 0 /\ forall j, (i <= j)%nat -> agree_at a b j).
Proof.
  revert i. induction n as [|n IH]; intros i Hi Hlen; simpl.
  - right; right. split; [reflexivity|].
    intros j Hj x y Hx. apply lookup_lt_Some in Hx. lia.
  - destruct (lookup_lt_is_Some_2 a i ltac:(lia)) as [x Hx].
    destruct (lookup_lt_is_Some_2 b i ltac:(lia)) as [y Hy].
    rewrite Hx, Hy.
    destruct (op_gt x y) eqn:Hgt.
    { left. split; [reflexivity|]. exists i, x, y. split_and!; auto; intros; lia. }
    destruct (op_lt x y) eqn:Hlt.
    { right; left. split; [reflexivity|]. exists i, x, y. split_and!; auto; intros; lia. }
    assert (Hag : forall j, (i <= j < S i)%nat -> agree_at a b j).
    { intros j Hj x' y' Hx' Hy'. replace j with i in * by lia.
      rewrite Hx in Hx'. rewrite Hy in Hy'. injection Hx' as <-. injection Hy' as <-. auto. }
    destruct (IH (S i) ltac:(lia) Hlen) as [[Hr (k & x' & y' & Hk & ? & ? & Hpre & ?)]
      | [[Hr (k & x' & y' & Hk & ? & ? & Hpre & ?)] | [Hr Hall]]].
    + left. split; [exact Hr|]. exists k, x', y'. split_and!; auto; try lia.
      intros j Hj. destruct (decide (j = i)) as [->|]; [apply Hag; lia | apply Hpre; lia].
    + right; left. split; [exact Hr|]. exists k, x', y'. split_and!; auto; try lia.
      intros j Hj. destruct (decide (j = i)) as [->|]; [apply Hag; lia | apply Hpre; lia].
    + right; right. split; [exact Hr|].
      intros j Hj. destruct (decide (j = i)) as [->|]; [apply Hag; lia | apply Hall; lia].
Qed.
End Veccmp.

(** C6: for every pair of equal-length vectors [a] and [b],
    [veccmp(a, b) == -veccmp(b, a)], and [veccmp(v, v) == 0] for every [v].
    The scan goes index by index: the result is [+1] with a first index
    where [lhs > rhs], [-1] with a first index where [lhs < rhs], and [0]
    when no index tells the two vectors apart. *)
Theorem veccmp_antisym_refl {T : Type} `{OrderedLaws T} :
  (forall a b : list T, length a = length b ->
     exists r, veccmp a b = Some r /\ veccmp b a = Some (- r) /\
       ((r = 1 /\ exists k x y, a !! k = Some x /\ b !! k = Some y /\
            (forall j, (j < k)%nat -> agree_at a b j) /\ op_gt x y = true)
        \/ (r = -1 /\ exists k x y, a !! k = Some x /\ b !! k = Some y /\
            (forall j, (j < k)%nat -> agree_at a b j) /\ op_lt x y = true)
        \/ (r = 0 /\ forall j, agree_at a b j)))
  /\ (forall v : list T, veccmp v v = Some 0).
Proof.
  split.
  - intros a b Hlen. exists (veccmp_from a b 0 (length a)).
    unfold veccmp. rewrite <- Hlen, Nat.eqb_refl. repeat split.
    + f_equal. apply veccmp_from_antisym.
    + destruct (veccmp_from_scan a b (length a) 0 ltac:(lia) Hlen)
        as [[Hr (k & x & y & _ & ? & ? & Hpre & ?)]
          | [[Hr (k & x & y & _ & ? & ? & Hpre & ?)] | [Hr Hall]]].
      * left. split; [exact Hr|]. exists k, x, y. split_and!; auto. intros; apply Hpre; lia.
      * right; left. split; [exact Hr|]. exists k, x, y. split_and!; auto. intros; apply Hpre; lia.
      * right; right. split; [exact Hr|]. intros; apply Hall; lia.
  - intros v. unfold veccmp. rewrite Nat.eqb_refl. f_equal. apply veccmp_from_refl.
Qed.

Lemma veccmp_antisym_refl_witness :
  length [1; 2; 3] = length [1; 3; 0] /\
  veccmp [1; 2; 3] [1; 3; 0] = Some (-1) /\ veccmp [1; 3; 0] [1; 2; 3] = Some 1
  /\ veccmp [1; 2; 3] [1; 2; 3] = Some 0.
Proof.
  split; [reflexivity|].
  destruct (@veccmp_antisym_refl Z _ _) as [Hab Hvv].
  destruct (Hab [1; 2; 3] [1; 3; 0] eq_refl) as (r & Hr & Hr' & _).
  vm_compute in Hr. injection Hr as <-.
  split; [reflexivity | split; [exact Hr' | apply Hvv]].
Defined.

(** ** sequential_sorted_contains *)

Section SortedContains.
Context {T : Type} `{TotalOrderLaws T}.

(** The scan, for any sequence: true exactly when an element equal to
    the target comes before every element greater than the target. *)
Lemma contains_scan (v : list T) (elem : T) :
  sequential_sorted_contains v elem = true <->
  exists l1 x l2, v = l1 ++ x :: l2 /\ op_eq x elem = true /\
    Forall (fun y => op_gt y elem = false) l1.
Proof.
  induction v as [|e v IH]; simpl.
  - split; [discriminate|]. intros (l1 & x & l2 & Hv & _). now destruct l1.
  - destruct (op_lt e elem) eqn:Hlt.
    + rewrite IH. split.
      * intros (l1 & x & l2 & -> & Hx & Hall). exists (e :: l1), x, l2.
        split_and!; auto. constructor; [|exact Hall].
        rewrite op_gt_lt. now apply op_lt_asym.
      * intros (l1 & x & l2 & Hv & Hx & Hall). destruct l1 as [|y l1]; simpl in Hv.
        -- injection Hv as -> ->. apply op_eq_not_lt in Hx. congruence.
        -- injection Hv as -> ->. exists l1, x, l2. split_and!; auto.
           now inversion Hall.
    + destruct (op_eq e elem) eqn:Heq.
      * split; [|reflexivity]. intros _. exists [], e, v. split_and!; auto.
      * split; [discriminate|].
        intros (l1 & x & l2 & Hv & Hx & Hall). destruct l1 as [|y l1]; simpl in Hv.
        -- injection Hv as -> ->. congruence.
        -- injection Hv as -> ->. inversion Hall as [|? ? Hy _]; subst.
           rewrite op_gt_lt in Hy. pose proof (op_lt_total _ _ Hlt Heq). congruence.
Qed.

Lemma sorted_ascending_tail (x : T) (v : list T) :
  sorted_ascending (x :: v) = true -> sorted_ascending v = true.
Proof. destruct v as [|y v]; [reflexivity|]. simpl. rewrite andb_true_iff. tauto. Qed.

Lemma sorted_ascending_head (x : T) (v : list T) :
  sorted_ascending (x :: v) = true -> forall y, y ∈ v -> op_lt y x = false.
Proof.
  revert x. induction v as [|z v IH]; intros x Hs y Hy.
  - inversion Hy.
  - pose proof (sorted_ascending_tail _ _ Hs) as Hs'.
    simpl in Hs. apply andb_true_iff in Hs as [Hzx _]. apply negb_true_iff in Hzx.
    apply elem_of_cons in Hy as [->|Hy]; [exact Hzx|].
    pose proof (IH z Hs' y Hy) as Hyz.
    destruct (op_lt y x) eqn:Hyx; [|reflexivity].
    destruct (op_eq z x) eqn:Hzeq.
    + apply op_eq_true in Hzeq. subst. congruence.
    + pose proof (op_lt_total _ _ Hzx Hzeq) as Hxz.
      pose proof (op_lt_trans _ _ _ Hyx Hxz). congruence.
Qed.

(** On a sorted sequence the scan is a membership test. *)
Lemma contains_sorted (v : list T) (elem : T) :
  sorted_ascending v = true ->
  (sequential_sorted_contains v elem = true <-> elem ∈ v).
Proof.
  intros Hs. split.
  - rewrite contains_scan. intros (l1 & x & l2 & -> & Hx & _).
    apply op_eq_true in Hx. subst. apply elem_of_app. right. left.
  - induction v as [|e v IH]; intros Hin; [inversion Hin|]. simpl.
    destruct (op_lt e elem) eqn:Hlt.
    + apply IH; [eapply sorted_ascending_tail; eauto|].
      apply elem_of_cons in Hin as [->|Hin]; [|exact Hin].
      pose proof (op_lt_asym _ _ Hlt). congruence.
    + destruct (op_eq e elem) eqn:Heq; [reflexivity|].
      pose proof (op_lt_total _ _ Hlt Heq) as Hgt.
      apply elem_of_cons in Hin as [->|Hin].
      * pose proof (op_lt_asym _ _ Hgt). congruence.
      * pose proof (sorted_ascending_head _ _ Hs _ Hin). congruence.
Qed.

(** Nothing after an element that is not less than the target is read. *)
Lemma contains_stops (l1 : list T) (e : T) (l2 l2' : list T) (elem : T) :
  op_lt e elem = false ->
  sequential_sorted_contains (l1 ++ e :: l2) elem =
  sequential_sorted_contains (l1 ++ e :: l2') elem.
Proof.
  intros He. induction l1 as [|y l1 IH]; simpl.
  - rewrite He. reflexivity.
  - rewrite IH. reflexivity.
Qed.

Lemma contains_blocked (l1 : list T) (g : T) (l2 : list T) (elem : T) :
  op_gt g elem = true -> elem ∉ l1 ->
  sequential_sorted_contains (l1 ++ g :: l2) elem = false.
Proof.
  intros Hg Hnot. rewrite op_gt_lt in Hg.
  induction l1 as [|y l1 IH]; simpl.
  - rewrite (op_lt_asym _ _ Hg).
    destruct (op_eq g elem) eqn:Heq; [|reflexivity].
    apply op_eq_true in Heq. subst. pose proof (op_lt_asym _ _ Hg). congruence.
  - apply not_elem_of_cons in Hnot as [Hne Hnot].
    destruct (op_lt y elem); [auto|].
    destruct (op_eq y elem) eqn:Heq; [|reflexivity].
    apply op_eq_true in Heq. congruence.
Qed.
End SortedContains.

(** C5: on every sequence sorted in ascending order,
    [sequential_sorted_contains(v, elem)] is true exactly when the scan from
    the left meets an element equal to [elem] before any element greater
    than [elem], which on a sorted sequence is to say when [elem] is in
    [v]; it is false otherwise.  On [1, 3, 5, 7] it is true for 5 and false
    for 4 and for 8. *)
Theorem sequential_sorted_contains_spec :
  (forall (T : Type) `(TotalOrderLaws T) (v : list T) (elem : T),
     sorted_ascending v = true ->
     (sequential_sorted_contains v elem = true <->
        exists l1 x l2, v = l1 ++ x :: l2 /\ op_eq x elem = true /\
          Forall (fun y => op_gt y elem = false) l1)
     /\ (sequential_sorted_contains v elem = true <-> elem ∈ v))
  /\ sequential_sorted_contains [1; 3; 5; 7] 5 = true
  /\ sequential_sorted_contains [1; 3; 5; 7] 4 = false
  /\ sequential_sorted_contains [1; 3; 5; 7] 8 = false.
Proof.
  split; [|split_and!; reflexivity].
  intros T ? ? v elem Hs. split; [apply contains_scan | now apply contains_sorted].
Qed.

Lemma sequential_sorted_contains_spec_witness :
  sorted_ascending [1; 3; 5; 7] = true /\
  (sequential_sorted_contains [1; 3; 5; 7] 5 = true <-> 5 ∈ [1; 3; 5; 7]).
Proof.
  split; [reflexivity|].
  destruct sequential_sorted_contains_spec as [Hs _].
  exact (proj2 (Hs Z _ _ [1; 3; 5; 7] 5 eq_refl)).
Defined.

(** C10: [sequential_sorted_contains] reads nothing past an element that is
    not less than the target: what follows such an element does not change
    the result.  So on a sequence that is not sorted it returns false
    whenever an element greater than the target stands before the target's
    first occurrence, although the target is in the sequence. *)
Theorem sequential_sorted_contains_unsorted {T : Type} `{TotalOrderLaws T} :
  (forall (l1 : list T) (e : T) (l2 l2' : list T) (elem : T),
     op_lt e elem = false ->
     sequential_sorted_contains (l1 ++ e :: l2) elem =
     sequential_sorted_contains (l1 ++ e :: l2') elem)
  /\ (forall (l1 : list T) (g : T) (l2 l3 : list T) (elem : T),
     op_gt g elem = true -> elem ∉ l1 ->
     sequential_sorted_contains (l1 ++ g :: l2 ++ elem :: l3) elem = false
     /\ elem ∈ l1 ++ g :: l2 ++ elem :: l3).
Proof.
  split.
  - intros. now apply contains_stops.
  - intros l1 g l2 l3 elem Hg Hnot. split; [now apply contains_blocked|].
    apply elem_of_app. right. right. apply elem_of_app. right. left.
Qed.

Lemma sequential_sorted_contains_unsorted_witness :
  sequential_sorted_contains [1; 5; 2; 3] 3 = false /\ 3 ∈ [1; 5; 2; 3].
Proof.
  destruct (@sequential_sorted_contains_unsorted Z _ _) as [_ Hb].
  apply (Hb [1] 5 [2] [] 3); [reflexivity|].
  apply not_elem_of_cons. split; [lia | apply not_elem_of_nil].
Defined.

(** ** Loops *)

Lemma for_range_0 {St : Type} (body : nat -> St -> St) (st : St) :
  for_range 0 body st = st.
Proof. reflexivity. Qed.

Lemma for_range_S {St : Type} (n : nat) (body : nat -> St -> St) (st : St) :
  for_range (S n) body st = body n (for_range n body st).
Proof. unfold for_range. rewrite seq_S, foldl_app. reflexivity. Qed.

Lemma for_range_ext {St : Type} (n : nat) (body body' : nat -> St -> St) (st : St) :
  (forall i st', (i < n)%nat -> body i st' = body' i st') ->
  for_range n body st = for_range n body' st.
Proof.
  induction n as [|n IH]; intros Hb; [reflexivity|].
  rewrite !for_range_S, IH by (intros; apply Hb; lia). apply Hb. lia.
Qed.

Section Loops.
Context {St : Type}.

(** A loop whose every iteration rewrites the same slot [i] rewrites
    that slot with the loop of the rewrites. *)
Lemma for_range_alter_same (G : nat -> St -> St) (i n : nat) (l : list St) :
  for_range n (fun k l' => alter (G k) i l') l = alter (for_range n G) i l.
Proof.
  induction n as [|n IH].
  - symmetry. apply list_alter_id. reflexivity.
  - rewrite for_range_S, IH, list_alter_alter_eq.
    apply list_alter_ext; [|reflexivity]. intros x _. symmetry. apply (for_range_S n G x).
Qed.

(** A loop whose iteration [i] rewrites slot [i]. *)
Lemma for_range_alter_each (F : nat -> St -> St) (n : nat) (l : list St) (k : nat) :
  for_range n (fun i l' => alter (F i) i l') l !! k =
  if decide (k < n)%nat then F k <$> l !! k else l !! k.
Proof.
  induction n as [|n IH].
  - rewrite for_range_0. case_decide; [lia | reflexivity].
  - rewrite for_range_S, list_lookup_alter.
    destruct (decide (n = k)) as [->|Hne].
    + rewrite IH. repeat case_decide; try lia. reflexivity.
    + rewrite IH. repeat case_decide; try lia; reflexivity.
Qed.

Lemma for_range_alter_each_length (F : nat -> St -> St) (n : nat) (l : list St) :
  length (for_range n (fun i l' => alter (F i) i l') l) = length l.
Proof.
  induction n as [|n IH]; [reflexivity|]. now rewrite for_range_S, length_alter.
Qed.
End Loops.

Lemma for_range_foldl {A B : Type} (f : A -> B -> A) (c : nat -> B) (n : nat) (x : A) :
  for_range n (fun k acc => f acc (c k)) x = foldl f x (map c (seq 0 n)).
Proof.
  induction n as [|n IH]; [reflexivity|].
  rewrite for_range_S, IH, seq_S, map_app, foldl_app. reflexivity.
Qed.

(** ** Tables *)

Lemma forallb_alter {A : Type} (P : A -> bool) (f : A -> A) (i : nat) (l : list A) :
  (forall x, P (f x) = P x) -> forallb P (alter f i l) = forallb P l.
Proof.
  intros HP. revert i. induction l as [|x l IH]; intros [|i]; simpl; try reflexivity.
  - now rewrite HP.
  - f_equal. apply IH.
Qed.

Section Tables.
Context {T : Type}.
Implicit Types (tb : list (list T)) (tc : list (list (list T))).

Lemma shape2_spec d1 d2 tb :
  shape2 d1 d2 tb = true <->
  length tb = d1 /\ forall i row, tb !! i = Some row -> length row = d2.
Proof.
  unfold shape2. rewrite andb_true_iff, Nat.eqb_eq, forallb_forall.
  split; intros [Hl Hr]; split; auto.
  - intros i row Hi. apply Nat.eqb_eq, Hr, list_elem_of_In.
    eapply list_elem_of_lookup_2; eauto.
  - intros row Hin. apply list_elem_of_In, list_elem_of_lookup_1 in Hin as [i Hi].
    apply Nat.eqb_eq. eauto.
Qed.

Lemma shape3_spec d1 d2 d3 tc :
  shape3 d1 d2 d3 tc = true <->
  length tc = d1 /\ forall i plane, tc !! i = Some plane -> shape2 d2 d3 plane = true.
Proof.
  unfold shape3. rewrite andb_true_iff, Nat.eqb_eq, forallb_forall.
  split; intros [Hl Hr]; split; auto.
  - intros i plane Hi. apply Hr, list_elem_of_In.
    eapply list_elem_of_lookup_2; eauto.
  - intros plane Hin. apply list_elem_of_In, list_elem_of_lookup_1 in Hin as [i Hi]. eauto.
Qed.

Lemma at2_is_Some d1 d2 tb i j :
  shape2 d1 d2 tb = true -> (i < d1)%nat -> (j < d2)%nat -> is_Some (at2 tb i j).
Proof.
  intros [Hl Hr]%shape2_spec Hi Hj. unfold at2.
  destruct (lookup_lt_is_Some_2 tb i ltac:(lia)) as [row Hrow]. rewrite Hrow. simpl.
  apply lookup_lt_is_Some_2. rewrite (Hr _ _ Hrow). exact Hj.
Qed.

Lemma at3_is_Some d1 d2 d3 tc i j k :
  shape3 d1 d2 d3 tc = true -> (i < d1)%nat -> (j < d2)%nat -> (k < d3)%nat ->
  is_Some (at3 tc i j k).
Proof.
  intros [Hl Hr]%shape3_spec Hi Hj Hk. unfold at3.
  destruct (lookup_lt_is_Some_2 tc i ltac:(lia)) as [plane Hp]. rewrite Hp. simpl.
  eapply at2_is_Some; eauto.
Qed.

Lemma at2_upd2 (f : T -> T) i j tb i' j' :
  at2 (upd2 f i j tb) i' j' =
  if decide (i = i' /\ j = j') then f <$> at2 tb i j else at2 tb i' j'.
Proof.
  unfold at2, upd2. rewrite list_lookup_alter.
  destruct (decide (i = i')) as [->|Hi].
  - destruct (tb !! i') as [row|]; simpl.
    + rewrite list_lookup_alter. repeat case_decide; try tauto; reflexivity || (exfalso; tauto).
    + case_decide; reflexivity.
  - case_decide; [tauto | reflexivity].
Qed.

Lemma at3_upd3 (f : T -> T) i j k tc i' j' k' :
  at3 (upd3 f i j k tc) i' j' k' =
  if decide (i = i' /\ j = j' /\ k = k') then f <$> at3 tc i j k else at3 tc i' j' k'.
Proof.
  unfold at3, upd3. rewrite list_lookup_alter.
  destruct (decide (i = i')) as [->|Hi].
  - destruct (tc !! i') as [plane|]; simpl.
    + rewrite at2_upd2. repeat case_decide; try tauto; reflexivity || (exfalso; tauto).
    + case_decide; reflexivity.
  - case_decide; [tauto | reflexivity].
Qed.

Lemma shape2_upd2 (f : T -> T) i j d1 d2 tb :
  shape2 d1 d2 (upd2 f i j tb) = shape2 d1 d2 tb.
Proof.
  unfold shape2, upd2. rewrite length_alter. f_equal.
  apply forallb_alter. intros row. now rewrite length_alter.
Qed.

Lemma shape3_upd3 (f : T -> T) i j k d1 d2 d3 tc :
  shape3 d1 d2 d3 (upd3 f i j k tc) = shape3 d1 d2 d3 tc.
Proof.
  unfold shape3, upd3. rewrite length_alter. f_equal.
  apply forallb_alter. intros plane. apply shape2_upd2.
Qed.

Lemma row3_upd3 (f : T -> T) i j k tc i' j' :
  row3 (upd3 f i j k tc) i' j' =
  if decide (i = i' /\ j = j') then alter f k (row3 tc i j) else row3 tc i' j'.
Proof.
  unfold row3, upd3, upd2, at2. rewrite list_lookup_alter.
  destruct (decide (i = i')) as [->|Hi].
  - destruct (tc !! i') as [plane|]; simpl.
    + rewrite list_lookup_alter. destruct (decide (j = j')) as [->|Hj].
      * rewrite decide_True by tauto. now destruct (plane !! j').
      * rewrite decide_False by tauto. reflexivity.
    + case_decide; [|reflexivity]. now destruct k.
  - rewrite decide_False by tauto. reflexivity.
Qed.

Lemma row3_lookup tc i j k : row3 tc i j !! k = at3 tc i j k.
Proof.
  unfold row3, at3, at2. destruct (tc !! i) as [plane|]; simpl; [|reflexivity].
  now destruct (plane !! j).
Qed.

Lemma row3_length d1 d2 d3 tc i j :
  shape3 d1 d2 d3 tc = true -> (i < d1)%nat -> (j < d2)%nat -> length (row3 tc i j) = d3.
Proof.
  intros [Hl Hr]%shape3_spec Hi Hj. unfold row3, at2.
  destruct (lookup_lt_is_Some_2 tc i ltac:(lia)) as [plane Hp]. rewrite Hp. simpl.
  apply Hr, shape2_spec in Hp as [Hl' Hr'].
  destruct (lookup_lt_is_Some_2 plane j ltac:(lia)) as [row Hrow]. rewrite Hrow. simpl.
  eauto.
Qed.

(** Reading every cell of a row gives the row back. *)
Lemma row3_read (d : T) d1 d2 d3 tc i j :
  shape3 d1 d2 d3 tc = true -> (i < d1)%nat -> (j < d2)%nat ->
  map (read3 d tc i j) (seq 0 d3) = row3 tc i j.
Proof.
  intros Hs Hi Hj. apply list_eq. intros k.
  change (map ?f ?l) with (f <$> l). rewrite list_lookup_fmap, row3_lookup.
  destruct (decide (k < d3)%nat) as [Hk|Hk].
  - rewrite lookup_seq_lt by exact Hk. simpl. unfold read3.
    destruct (at3_is_Some _ _ _ _ _ _ _ Hs Hi Hj Hk) as [x Hx]. now rewrite Hx.
  - rewrite lookup_seq_ge by lia. simpl. symmetry.
    rewrite <- row3_lookup. apply lookup_ge_None.
    rewrite (row3_length _ _ _ _ _ _ Hs Hi Hj). lia.
Qed.
End Tables.

(** ** copyTable3D *)

Section Copy.
Context {T : Type}.

Lemma copyTable3D_unfold (inp : nat -> nat -> nat -> T) out d1 d2 d3 :
  copyTable3D inp out d1 d2 d3 =
  for_range d1 (fun i out' =>
    alter (for_range d2 (fun j plane =>
      alter (for_range d3 (fun x row => alter (fun _ => inp i j x) x row)) j plane))
      i out') out.
Proof.
  unfold copyTable3D. apply for_range_ext. intros i st _.
  rewrite <- for_range_alter_same. apply for_range_ext. intros j st' _.
  unfold upd3, upd2.
  rewrite (for_range_alter_same
    (fun x plane => alter (alter (fun _ => inp i j x) x) j plane) i d3 st').
  apply list_alter_ext; [|reflexivity]. intros plane _.
  apply (for_range_alter_same (fun x row => alter (fun _ => inp i j x) x row) j d3 plane).
Qed.

Lemma at3_copyTable3D (inp : nat -> nat -> nat -> T) out d1 d2 d3 i j k :
  at3 (copyTable3D inp out d1 d2 d3) i j k =
  if decide (i < d1 /\ j < d2 /\ k < d3)%nat
  then (fun _ => inp i j k) <$> at3 out i j k
  else at3 out i j k.
Proof.
  rewrite copyTable3D_unfold. unfold at3, at2.
  rewrite (for_range_alter_each _ d1 out i).
  destruct (decide (i < d1)%nat) as [Hi|Hi]; [|rewrite decide_False by tauto; reflexivity].
  destruct (out !! i) as [plane|]; simpl; [|case_decide; reflexivity].
  rewrite (for_range_alter_each _ d2 plane j).
  destruct (decide (j < d2)%nat) as [Hj|Hj]; [|rewrite decide_False by tauto; reflexivity].
  destruct (plane !! j) as [row|]; simpl; [|case_decide; reflexivity].
  rewrite (for_range_alter_each _ d3 row k).
  destruct (decide (k < d3)%nat) as [Hk|Hk];
    [rewrite decide_True by tauto | rewrite decide_False by tauto]; reflexivity.
Qed.

Lemma shape3_copyTable3D (inp : nat -> nat -> nat -> T) out d1 d2 d3 e1 e2 e3 :
  shape3 e1 e2 e3 (copyTable3D inp out d1 d2 d3) = shape3 e1 e2 e3 out.
Proof.
  unfold copyTable3D.
  assert (H3 : forall i j n st,
    shape3 e1 e2 e3 (for_range n (fun x out' => upd3 (fun _ => inp i j x) i j x out') st)
    = shape3 e1 e2 e3 st).
  { intros i j n st. induction n as [|n IH]; [reflexivity|].
    now rewrite for_range_S, shape3_upd3. }
  assert (H2 : forall i n st,
    shape3 e1 e2 e3 (for_range n (fun j =>
      for_range d3 (fun x out' => upd3 (fun _ => inp i j x) i j x out')) st)
    = shape3 e1 e2 e3 st).
  { intros i n st. induction n as [|n IH]; [reflexivity|].
    now rewrite for_range_S, H3. }
  induction d1 as [|n IH]; [reflexivity|].
  now rewrite for_range_S, H2.
Qed.
End Copy.

(** ** Unsigned sums *)

Lemma wrap_wrap (x : Z) : U64.wrap (U64.wrap x) = U64.wrap x.
Proof. unfold U64.wrap. apply Z.mod_mod. discriminate. Qed.

Lemma wrap_add_l (x y : Z) : U64.wrap (U64.wrap x + y) = U64.wrap (x + y).
Proof. unfold U64.wrap. apply Zplus_mod_idemp_l. Qed.

Lemma wrap_add_r (x y : Z) : U64.wrap (x + U64.wrap y) = U64.wrap (x + y).
Proof. unfold U64.wrap. apply Zplus_mod_idemp_r. Qed.

Lemma wrap_small (x : Z) : U64.in_range x = true -> U64.wrap x = x.
Proof.
  unfold U64.in_range, U64.wrap. rewrite andb_true_iff, Z.leb_le, Z.ltb_lt.
  intros. apply Z.mod_small. lia.
Qed.

Lemma in_range_wrap (x : Z) : U64.in_range (U64.wrap x) = true.
Proof.
  unfold U64.in_range, U64.wrap. rewrite andb_true_iff, Z.leb_le, Z.ltb_lt.
  apply Z.mod_pos_bound. reflexivity.
Qed.

Lemma in_range_add (x y : Z) : U64.in_range (U64.add x y) = true.
Proof. apply in_range_wrap. Qed.

Lemma foldl_add_wrap (l : list Z) (x : Z) :
  foldl U64.add (U64.wrap x) l = U64.wrap (x + sumZ l).
Proof.
  revert x. induction l as [|y l IH]; intros x; simpl.
  - now rewrite Z.add_0_r.
  - unfold U64.add at 2. rewrite wrap_add_l, IH. f_equal. lia.
Qed.

Lemma sumU_sumZ (l : list Z) : sumU l = U64.wrap (sumZ l).
Proof. unfold sumU. exact (foldl_add_wrap l 0). Qed.

Lemma foldl_add_sumU (l : list Z) (x : Z) :
  U64.in_range x = true -> foldl U64.add x l = U64.add x (sumU l).
Proof.
  intros Hx. rewrite <- (wrap_small x Hx) at 1.
  rewrite foldl_add_wrap, sumU_sumZ. unfold U64.add. now rewrite wrap_add_r.
Qed.

Lemma sumZ_alter (f : Z -> Z) (i : nat) (l : list Z) (x : Z) :
  l !! i = Some x -> sumZ (alter f i l) = sumZ l - x + f x.
Proof.
  revert i. induction l as [|y l IH]; intros [|i] Hi; simpl in *; try discriminate.
  - injection Hi as ->. lia.
  - specialize (IH i Hi). unfold sumZ in *. simpl in *.
    change (list_alter f i l) with (alter f i l). lia.
Qed.

Lemma sumU_alter_incr (i : nat) (l : list Z) :
  (i < length l)%nat ->
  sumU (alter (fun x => U64.add x 1) i l) = U64.add (sumU l) 1.
Proof.
  intros Hi. destruct (lookup_lt_is_Some_2 l i Hi) as [x Hx].
  rewrite !sumU_sumZ, (sumZ_alter _ _ _ _ Hx). unfold U64.add.
  rewrite wrap_add_r, wrap_add_l. f_equal. lia.
Qed.

Lemma sumU_zeros {A : Type} (l : list A) : sumU (map (fun _ => 0) l) = 0.
Proof. rewrite sumU_sumZ. induction l; simpl; auto. Qed.

Lemma sumU_replicate (n : nat) : sumU (replicate n 0) = 0.
Proof. rewrite sumU_sumZ. induction n; simpl; auto. Qed.

(** ** The marginal loops of [setVisits] and [setRewards] *)

Section Marginal.
Context {T : Type} (plus : T -> T -> T) (c : nat -> nat -> nat -> T).

Lemma marginal_loop_unfold dS dA m :
  marginal_loop plus c dS dA m =
  for_range dS (fun s m' =>
    alter (for_range dA (fun a row =>
      alter (fun x => foldl plus x (map (c s a) (seq 0 dS))) a row)) s m') m.
Proof.
  unfold marginal_loop. apply for_range_ext. intros s st _.
  rewrite <- for_range_alter_same. apply for_range_ext. intros a st' _.
  unfold upd2.
  rewrite (for_range_alter_same (fun s1 row => alter (fun x => plus x (c s a s1)) a row) s dS st').
  apply list_alter_ext; [|reflexivity]. intros row _.
  rewrite (for_range_alter_same (fun s1 x => plus x (c s a s1)) a dS row).
  apply list_alter_ext; [|reflexivity]. intros x _.
  apply (for_range_foldl plus (c s a)).
Qed.

Lemma at2_marginal_loop dS dA m s a :
  at2 (marginal_loop plus c dS dA m) s a =
  if decide (s < dS /\ a < dA)%nat
  then (fun x => foldl plus x (map (c s a) (seq 0 dS))) <$> at2 m s a
  else at2 m s a.
Proof.
  rewrite marginal_loop_unfold. unfold at2.
  rewrite (for_range_alter_each _ dS m s).
  destruct (decide (s < dS)%nat) as [Hs|Hs]; [|rewrite decide_False by tauto; reflexivity].
  destruct (m !! s) as [row|]; simpl; [|case_decide; reflexivity].
  rewrite (for_range_alter_each _ dA row a).
  destruct (decide (a < dA)%nat) as [Ha|Ha];
    [rewrite decide_True by tauto | rewrite decide_False by tauto]; reflexivity.
Qed.

Lemma shape2_marginal_loop dS dA m d1 d2 :
  shape2 d1 d2 (marginal_loop plus c dS dA m) = shape2 d1 d2 m.
Proof.
  unfold marginal_loop.
  assert (H3 : forall s a n st,
    shape2 d1 d2 (for_range n (fun s1 m' => upd2 (fun x => plus x (c s a s1)) s a m') st)
    = shape2 d1 d2 st).
  { intros s a n st. induction n as [|n IH]; [reflexivity|].
    now rewrite for_range_S, shape2_upd2. }
  assert (H2 : forall s n st,
    shape2 d1 d2 (for_range n (fun a =>
      for_range dS (fun s1 m' => upd2 (fun x => plus x (c s a s1)) s a m')) st)
    = shape2 d1 d2 st).
  { intros s n st. induction n as [|n IH]; [reflexivity|].
    now rewrite for_range_S, H3. }
  generalize dS at 1. intros n. induction n as [|n IH]; [reflexivity|].
  now rewrite for_range_S, H2.
Qed.
End Marginal.

Lemma setVisits_marginal_loop (v : nat -> nat -> nat -> Z) (e : Experience) :
  visitsSum_ (setVisits v e) =
  marginal_loop U64.add (read3 0 (visits_ (setVisits v e))) (getS e) (getA e) (visitsSum_ e).
Proof. reflexivity. Qed.

Lemma setRewards_marginal_loop (r : nat -> nat -> nat -> double) (e : Experience) :
  rewardsSum_ (setRewards r e) =
  marginal_loop Double.add (read3 Double.zero (rewards_ (setRewards r e)))
    (getS e) (getA e) (rewardsSum_ e).
Proof. reflexivity. Qed.

Lemma forallb_lookup {A : Type} (P : A -> bool) (l : list A) (i : nat) (x : A) :
  forallb P l = true -> l !! i = Some x -> P x = true.
Proof.
  rewrite forallb_forall. intros Hl Hi. apply Hl, list_elem_of_In.
  eapply list_elem_of_lookup_2; eauto.
Qed.

Lemma forallb_alter_true {A : Type} (P : A -> bool) (f : A -> A) (i : nat) (l : list A) :
  forallb P l = true -> (forall x, P x = true -> P (f x) = true) ->
  forallb P (alter f i l) = true.
Proof.
  intros Hl Hf. revert i Hl. induction l as [|x l IH]; intros [|i]; simpl; auto;
    rewrite !andb_true_iff; intros [Hx Hl]; split; auto. now apply IH.
Qed.

Lemma table3_eq {T : Type} (d1 d2 d3 : nat) (t t' : list (list (list T))) :
  shape3 d1 d2 d3 t = true -> shape3 d1 d2 d3 t' = true ->
  (forall i j k, (i < d1)%nat -> (j < d2)%nat -> (k < d3)%nat ->
     at3 t i j k = at3 t' i j k) ->
  t = t'.
Proof.
  intros [Hl Hp]%shape3_spec [Hl' Hp']%shape3_spec Hcell.
  apply (list_eq_same_length _ _ d1); auto.
  intros i p p' Hi Hpi Hpi'.
  pose proof (Hp _ _ Hpi) as [Hpl Hr]%shape2_spec.
  pose proof (Hp' _ _ Hpi') as [Hpl' Hr']%shape2_spec.
  apply (list_eq_same_length _ _ d2); auto.
  intros j r r' Hj Hrj Hrj'.
  apply (list_eq_same_length _ _ d3); eauto.
  intros k x y Hk Hx Hy.
  specialize (Hcell i j k Hi Hj Hk). unfold at3, at2 in Hcell.
  rewrite Hpi, Hpi' in Hcell. simpl in Hcell. rewrite Hrj, Hrj' in Hcell. simpl in Hcell.
  congruence.
Qed.

(** ** Well-formed tables *)

Lemma wf_Experience_spec (e : Experience) :
  wf_Experience e = true <->
  shape3 (getS e) (getA e) (getS e) (visits_ e) = true /\
  shape2 (getS e) (getA e) (visitsSum_ e) = true /\
  shape3 (getS e) (getA e) (getS e) (rewards_ e) = true /\
  shape2 (getS e) (getA e) (rewardsSum_ e) = true /\
  forallb (forallb (forallb U64.in_range)) (visits_ e) = true /\
  forallb (forallb U64.in_range) (visitsSum_ e) = true.
Proof. unfold wf_Experience. rewrite !andb_true_iff. tauto. Qed.

Lemma at2_in_range (m : list (list Z)) (s a : nat) (x : Z) :
  forallb (forallb U64.in_range) m = true -> at2 m s a = Some x -> U64.in_range x = true.
Proof.
  intros Hm. unfold at2. destruct (m !! s) as [row|] eqn:Hrow; simpl; [|discriminate].
  intros Hx. eapply forallb_lookup; [|exact Hx]. eapply forallb_lookup; eauto.
Qed.

Lemma read2_in_range (m : list (list Z)) (s a : nat) :
  forallb (forallb U64.in_range) m = true -> U64.in_range (read2 0 m s a) = true.
Proof.
  intros Hm. unfold read2. destruct (at2 m s a) as [x|] eqn:Hx; simpl; [|reflexivity].
  eapply at2_in_range; eauto.
Qed.

(** ** setVisits and setRewards *)

Section BulkImport.
Variable e : Experience.
Hypothesis Hwf : wf_Experience e = true.
Variables s a : nat.
Hypothesis Hs : (s < getS e)%nat.
Hypothesis Ha : (a < getA e)%nat.

Lemma setVisits_cell (v : nat -> nat -> nat -> Z) (s1 : nat) :
  (s1 < getS e)%nat -> getVisits (setVisits v e) s a s1 = v s a s1.
Proof.
  intros Hs1. apply wf_Experience_spec in Hwf as (Hv & _).
  unfold getVisits, read3. simpl. rewrite at3_copyTable3D, decide_True by tauto.
  destruct (at3_is_Some _ _ _ _ _ _ _ Hv Hs Ha Hs1) as [x ->]. reflexivity.
Qed.

Lemma setRewards_cell (r : nat -> nat -> nat -> double) (s1 : nat) :
  (s1 < getS e)%nat -> getReward (setRewards r e) s a s1 = r s a s1.
Proof.
  intros Hs1. apply wf_Experience_spec in Hwf as (_ & _ & Hr & _).
  unfold getReward, read3. simpl. rewrite at3_copyTable3D, decide_True by tauto.
  destruct (at3_is_Some _ _ _ _ _ _ _ Hr Hs Ha Hs1) as [x ->]. reflexivity.
Qed.

(** The marginal after [setVisits] is the marginal before it plus the
    sum of the row just copied. *)
Lemma setVisits_visitsSum (v : nat -> nat -> nat -> Z) :
  getVisitsSum (setVisits v e) s a =
  U64.add (getVisitsSum e s a) (sumU (row3 (visits_ (setVisits v e)) s a)).
Proof.
  pose proof Hwf as (Hv & Hvs & _ & _ & _ & Hrange)%wf_Experience_spec.
  unfold getVisitsSum, read2. rewrite setVisits_marginal_loop.
  rewrite at2_marginal_loop, decide_True by tauto.
  destruct (at2_is_Some _ _ _ _ _ Hvs Hs Ha) as [x Hx]. rewrite Hx. simpl.
  rewrite (row3_read 0 (getS e) (getA e) (getS e)); auto.
  - apply foldl_add_sumU. eapply at2_in_range; eauto.
  - simpl. now rewrite shape3_copyTable3D.
Qed.

Lemma setRewards_rewardsSum (r : nat -> nat -> nat -> double) :
  getRewardSum (setRewards r e) s a =
  foldl Double.add (getRewardSum e s a) (row3 (rewards_ (setRewards r e)) s a).
Proof.
  pose proof Hwf as (_ & _ & Hr & Hrs & _)%wf_Experience_spec.
  unfold getRewardSum, read2. rewrite setRewards_marginal_loop.
  rewrite at2_marginal_loop, decide_True by tauto.
  destruct (at2_is_Some _ _ _ _ _ Hrs Hs Ha) as [x Hx]. rewrite Hx. simpl.
  rewrite (row3_read Double.zero (getS e) (getA e) (getS e)); auto.
  simpl. now rewrite shape3_copyTable3D.
Qed.

(** On a marginal that is zero, as after construction or [reset], the
    import leaves the sum of the row. *)
Lemma setVisits_visitsSum_fresh (v : nat -> nat -> nat -> Z) :
  getVisitsSum e s a = 0 ->
  getVisitsSum (setVisits v e) s a = sumU (row3 (visits_ (setVisits v e)) s a).
Proof.
  intros H0. rewrite setVisits_visitsSum, H0. unfold U64.add. simpl.
  rewrite sumU_sumZ. apply wrap_wrap.
Qed.

Lemma setRewards_rewardsSum_fresh (r : nat -> nat -> nat -> double) :
  getRewardSum e s a = Double.zero ->
  getRewardSum (setRewards r e) s a = sumD (row3 (rewards_ (setRewards r e)) s a).
Proof. intros H0. rewrite setRewards_rewardsSum, H0. reflexivity. Qed.
End BulkImport.

(** Importing the table's own contents leaves the table as it is. *)
Lemma setVisits_same_visits (e : Experience) :
  wf_Experience e = true ->
  visits_ (setVisits (container_of 0 (visits_ e)) e) = visits_ e.
Proof.
  intros (Hv & _)%wf_Experience_spec. simpl.
  apply (table3_eq (getS e) (getA e) (getS e)); auto.
  - now rewrite shape3_copyTable3D.
  - intros i j k Hi Hj Hk. rewrite at3_copyTable3D, decide_True by tauto.
    unfold container_of, read3.
    destruct (at3_is_Some _ _ _ _ _ _ _ Hv Hi Hj Hk) as [x ->]. reflexivity.
Qed.

Lemma setRewards_same_rewards (e : Experience) :
  wf_Experience e = true ->
  rewards_ (setRewards (container_of Double.zero (rewards_ e)) e) = rewards_ e.
Proof.
  intros (_ & _ & Hr & _)%wf_Experience_spec. simpl.
  apply (table3_eq (getS e) (getA e) (getS e)); auto.
  - now rewrite shape3_copyTable3D.
  - intros i j k Hi Hj Hk. rewrite at3_copyTable3D, decide_True by tauto.
    unfold container_of, read3.
    destruct (at3_is_Some _ _ _ _ _ _ _ Hr Hi Hj Hk) as [x ->]. reflexivity.
Qed.

(** ** Tables filled with one value *)

Lemma shape2_map {T U : Type} (f : T -> U) d1 d2 (t : list (list T)) :
  shape2 d1 d2 (map (map f) t) = shape2 d1 d2 t.
Proof.
  unfold shape2. rewrite length_map. f_equal.
  induction t as [|row t IH]; simpl; [reflexivity|]. now rewrite length_map, IH.
Qed.

Lemma shape3_map {T U : Type} (f : T -> U) d1 d2 d3 (t : list (list (list T))) :
  shape3 d1 d2 d3 (map (map (map f)) t) = shape3 d1 d2 d3 t.
Proof.
  unfold shape3. rewrite length_map. f_equal.
  induction t as [|plane t IH]; simpl; [reflexivity|]. now rewrite shape2_map, IH.
Qed.

Lemma at2_map {T U : Type} (f : T -> U) (t : list (list T)) i j :
  at2 (map (map f) t) i j = f <$> at2 t i j.
Proof.
  unfold at2. change (map (map f) t) with (map f <$> t). rewrite list_lookup_fmap.
  destruct (t !! i) as [row|]; simpl; [|reflexivity].
  change (map f row) with (f <$> row). apply list_lookup_fmap.
Qed.

Lemma row3_map {T U : Type} (f : T -> U) (t : list (list (list T))) i j :
  row3 (map (map (map f)) t) i j = map f (row3 t i j).
Proof.
  unfold row3. rewrite (at2_map (map f)). now destruct (at2 t i j).
Qed.

Lemma shape2_replicate {T : Type} (d1 d2 : nat) (x : T) :
  shape2 d1 d2 (replicate d1 (replicate d2 x)) = true.
Proof.
  unfold shape2. rewrite length_replicate, Nat.eqb_refl. simpl.
  apply forallb_forall. intros row Hin%list_elem_of_In%elem_of_replicate.
  destruct Hin as [-> _]. rewrite length_replicate. apply Nat.eqb_refl.
Qed.

Lemma shape3_replicate {T : Type} (d1 d2 d3 : nat) (x : T) :
  shape3 d1 d2 d3 (replicate d1 (replicate d2 (replicate d3 x))) = true.
Proof.
  unfold shape3. rewrite length_replicate, Nat.eqb_refl. simpl.
  apply forallb_forall. intros plane Hin%list_elem_of_In%elem_of_replicate.
  destruct Hin as [-> _]. apply shape2_replicate.
Qed.

Lemma forallb_replicate {T : Type} (P : T -> bool) (n : nat) (x : T) :
  P x = true -> forallb P (replicate n x) = true.
Proof. intros Hx. induction n; simpl; [reflexivity|]. now rewrite Hx. Qed.

Lemma forallb_map_const {T U : Type} (P : U -> bool) (c : U) (l : list T) :
  P c = true -> forallb P (map (fun _ => c) l) = true.
Proof. intros Hc. induction l; simpl; [reflexivity|]. now rewrite Hc. Qed.

Lemma forallb_map_all {T U : Type} (P : U -> bool) (f : T -> U) (l : list T) :
  (forall x, P (f x) = true) -> forallb P (map f l) = true.
Proof. intros Hf. induction l; simpl; [reflexivity|]. now rewrite Hf. Qed.

Lemma at2_replicate {T : Type} (d1 d2 : nat) (x : T) i j :
  at2 (replicate d1 (replicate d2 x)) i j =
  if decide (i < d1 /\ j < d2)%nat then Some x else None.
Proof.
  unfold at2. destruct (decide (i < d1)%nat) as [Hi|Hi].
  - rewrite lookup_replicate_2 by exact Hi. simpl.
    destruct (decide (j < d2)%nat) as [Hj|Hj].
    + rewrite decide_True by tauto. now apply lookup_replicate_2.
    + rewrite decide_False by tauto. apply lookup_replicate_None. lia.
  - rewrite decide_False by tauto.
    rewrite (proj1 (lookup_replicate_None d1 (replicate d2 x) i)) by lia. reflexivity.
Qed.

(** ** The constructor and reset *)

Lemma construct_wf (S A : nat) : wf_Experience (construct S A) = true.
Proof.
  apply wf_Experience_spec. simpl.
  split_and!; auto using shape2_replicate, shape3_replicate, forallb_replicate.
Qed.

Lemma construct_visits_consistent (S A : nat) : visits_consistent (construct S A).
Proof.
  intros s a Hs Ha. simpl in *. unfold getVisitsSum, read2, row3. simpl.
  rewrite !at2_replicate, !decide_True by tauto. simpl. now rewrite sumU_replicate.
Qed.

Lemma construct_rewardsSum (S A s a : nat) : getRewardSum (construct S A) s a = Double.zero.
Proof.
  unfold getRewardSum, read2. simpl. rewrite at2_replicate. now case_decide.
Qed.

Lemma reset_wf (e : Experience) : wf_Experience e = true -> wf_Experience (reset e) = true.
Proof.
  rewrite !wf_Experience_spec. simpl. intros (Hv & Hvs & Hr & Hrs & _).
  rewrite !shape3_map, !shape2_map. split_and!; auto.
  - apply forallb_map_all. intros plane. apply forallb_map_all. intros row.
    now apply forallb_map_const.
  - apply forallb_map_all. intros row. now apply forallb_map_const.
Qed.

Lemma reset_visits_consistent (e : Experience) : visits_consistent (reset e).
Proof.
  intros s a _ _. unfold getVisitsSum, read2. simpl.
  rewrite at2_map, row3_map, sumU_zeros. now destruct (at2 (visitsSum_ e) s a).
Qed.

Lemma reset_rewardsSum (e : Experience) (s a : nat) :
  getRewardSum (reset e) s a = Double.zero.
Proof.
  unfold getRewardSum, read2. simpl. rewrite at2_map.
  now destruct (at2 (rewardsSum_ e) s a).
Qed.

(** ** record *)

Section Record.
Variable e : Experience.
Hypothesis Hwf : wf_Experience e = true.
Variables s a s1 : nat.
Variable rew : double.
Hypothesis Hs : (s < getS e)%nat.
Hypothesis Ha : (a < getA e)%nat.
Hypothesis Hs1 : (s1 < getS e)%nat.

Lemma record_wf : wf_Experience (record s a s1 rew e) = true.
Proof.
  apply wf_Experience_spec in Hwf as (Hv & Hvs & Hr & Hrs & Hvr & Hvsr).
  apply wf_Experience_spec. simpl.
  rewrite !shape3_upd3, !shape2_upd2. split_and!; auto.
  - unfold upd3, upd2. apply forallb_alter_true; [exact Hvr|].
    intros plane Hp. apply forallb_alter_true; [exact Hp|].
    intros row Hrow. apply forallb_alter_true; [exact Hrow|].
    intros x _. apply in_range_add.
  - unfold upd2. apply forallb_alter_true; [exact Hvsr|].
    intros row Hrow. apply forallb_alter_true; [exact Hrow|].
    intros x _. apply in_range_add.
Qed.

Lemma record_visits : getVisits (record s a s1 rew e) s a s1 = U64.add (getVisits e s a s1) 1.
Proof.
  apply wf_Experience_spec in Hwf as (Hv & _).
  unfold getVisits, read3. simpl. rewrite at3_upd3, decide_True by tauto.
  destruct (at3_is_Some _ _ _ _ _ _ _ Hv Hs Ha Hs1) as [x ->]. reflexivity.
Qed.

Lemma record_visitsSum : getVisitsSum (record s a s1 rew e) s a = U64.add (getVisitsSum e s a) 1.
Proof.
  apply wf_Experience_spec in Hwf as (_ & Hvs & _).
  unfold getVisitsSum, read2. simpl. rewrite at2_upd2, decide_True by tauto.
  destruct (at2_is_Some _ _ _ _ _ Hvs Hs Ha) as [x ->]. reflexivity.
Qed.

Lemma record_reward :
  getReward (record s a s1 rew e) s a s1 = Double.add (getReward e s a s1) rew.
Proof.
  apply wf_Experience_spec in Hwf as (_ & _ & Hr & _).
  unfold getReward, read3. simpl. rewrite at3_upd3, decide_True by tauto.
  destruct (at3_is_Some _ _ _ _ _ _ _ Hr Hs Ha Hs1) as [x ->]. reflexivity.
Qed.

Lemma record_rewardSum :
  getRewardSum (record s a s1 rew e) s a = Double.add (getRewardSum e s a) rew.
Proof.
  apply wf_Experience_spec in Hwf as (_ & _ & _ & Hrs & _).
  unfold getRewardSum, read2. simpl. rewrite at2_upd2, decide_True by tauto.
  destruct (at2_is_Some _ _ _ _ _ Hrs Hs Ha) as [x ->]. reflexivity.
Qed.

Lemma record_rewardSum_other (s' a' : nat) :
  ~ (s = s' /\ a = a') -> getRewardSum (record s a s1 rew e) s' a' = getRewardSum e s' a'.
Proof.
  intros Hne. unfold getRewardSum, read2. simpl. now rewrite at2_upd2, decide_False.
Qed.

Lemma record_visits_consistent :
  visits_consistent e -> visits_consistent (record s a s1 rew e).
Proof.
  intros Hinv s' a' Hs' Ha'. simpl in Hs', Ha'.
  pose proof Hwf as (Hv & Hvs & _)%wf_Experience_spec.
  destruct (decide (s = s' /\ a = a')) as [[<- <-]|Hne].
  - rewrite record_visitsSum. simpl. rewrite row3_upd3, decide_True by tauto.
    rewrite sumU_alter_incr, <- Hinv; auto.
    now rewrite (row3_length _ _ _ _ _ _ Hv Hs Ha).
  - unfold getVisitsSum, read2. simpl.
    rewrite at2_upd2, row3_upd3, !decide_False by tauto. now apply Hinv.
Qed.
End Record.

Lemma no_overflow_incr (x : Z) :
  U64.in_range x = true -> x < U64.modulus - 1 -> U64.add x 1 = x + 1.
Proof.
  unfold U64.in_range, U64.add, U64.wrap. rewrite andb_true_iff, Z.leb_le, Z.ltb_lt.
  intros Hx Hlt. apply Z.mod_small. lia.
Qed.

(** ** Sequences of operations *)

Lemma run_snoc (ops : list Op) (op : Op) (e : Experience) :
  run (ops ++ [op]) e = apply_op (run ops e) op.
Proof. unfold run. apply foldl_snoc. Qed.

Lemma recorded_total_snoc (ops : list Op) (op : Op) (s a : nat) :
  recorded_total (ops ++ [op]) s a =
  match op with
  | OpRecord s' a' _ rew =>
      if (s' =? s)%nat && (a' =? a)%nat
      then Double.add (recorded_total ops s a) rew
      else recorded_total ops s a
  | OpReset => Double.zero
  | _ => recorded_total ops s a
  end.
Proof. unfold recorded_total. now rewrite foldl_snoc. Qed.

(** C4: with [s], [s1] below [S] and [a] below [A],
    [record(s, a, s1, reward)] increments [visits[s][a][s1]] and
    [visitsSum[s][a]] by one (in [unsigned long] arithmetic, which is by
    exactly one below [ULONG_MAX]), adds [reward] to [rewards[s][a][s1]]
    and to [rewardsSum[s][a]] (in [double] arithmetic), and leaves every
    other cell of the four tables, the dimensions and the shape of the
    tables as they were.  It returns nothing but the updated table. *)
Theorem record_effect (e : Experience) (s a s1 : nat) (rew : double) :
  wf_Experience e = true ->
  (s < getS e)%nat -> (a < getA e)%nat -> (s1 < getS e)%nat ->
  let e' := record s a s1 rew e in
  getVisits e' s a s1 = U64.add (getVisits e s a s1) 1
  /\ (getVisits e s a s1 < U64.modulus - 1 -> getVisits e' s a s1 = getVisits e s a s1 + 1)
  /\ getVisitsSum e' s a = U64.add (getVisitsSum e s a) 1
  /\ (getVisitsSum e s a < U64.modulus - 1 -> getVisitsSum e' s a = getVisitsSum e s a + 1)
  /\ getReward e' s a s1 = Double.add (getReward e s a s1) rew
  /\ getRewardSum e' s a = Double.add (getRewardSum e s a) rew
  /\ (forall s' a' s1', ~ (s = s' /\ a = a' /\ s1 = s1') ->
        at3 (visits_ e') s' a' s1' = at3 (visits_ e) s' a' s1' /\
        at3 (rewards_ e') s' a' s1' = at3 (rewards_ e) s' a' s1')
  /\ (forall s' a', ~ (s = s' /\ a = a') ->
        at2 (visitsSum_ e') s' a' = at2 (visitsSum_ e) s' a' /\
        at2 (rewardsSum_ e') s' a' = at2 (rewardsSum_ e) s' a')
  /\ getS e' = getS e /\ getA e' = getA e
  /\ wf_Experience e' = true.
Proof.
  intros Hwf Hs Ha Hs1 e'. subst e'.
  pose proof Hwf as (Hv & Hvs & _ & _ & Hvr & Hvsr)%wf_Experience_spec.
  split_and!.
  - now apply record_visits.
  - intros Hlt. rewrite record_visits by assumption.
    apply no_overflow_incr; [|exact Hlt].
    unfold getVisits, read3.
    destruct (at3_is_Some _ _ _ _ _ _ _ Hv Hs Ha Hs1) as [x Hx]. rewrite Hx. simpl.
    unfold at3 in Hx. destruct (visits_ e !! s) as [plane|] eqn:Hp; [|discriminate].
    simpl in Hx. eapply at2_in_range; [|exact Hx]. eapply forallb_lookup; eauto.
  - now apply record_visitsSum.
  - intros Hlt. rewrite record_visitsSum by assumption.
    apply no_overflow_incr; [|exact Hlt]. now apply read2_in_range.
  - now apply record_reward.
  - now apply record_rewardSum.
  - intros s' a' s1' Hne. simpl. now rewrite !at3_upd3, !decide_False.
  - intros s' a' Hne. simpl. now rewrite !at2_upd2, !decide_False.
  - reflexivity.
  - reflexivity.
  - now apply record_wf.
Qed.

Lemma record_effect_witness :
  getVisits (record 0 0 1 one (construct 2 1)) 0 0 1 = 1
  /\ getVisitsSum (record 0 0 1 one (construct 2 1)) 0 0 = 1
  /\ getReward (record 0 0 1 one (construct 2 1)) 0 0 1 = one
  /\ getRewardSum (record 0 0 1 one (construct 2 1)) 0 0 = one.
Proof.
  destruct (record_effect (construct 2 1) 0 0 1 one)
    as (Hv & _ & Hvs & _ & Hr & Hrs & _); [reflexivity | simpl; lia ..|].
  rewrite Hv, Hvs, Hr, Hrs. vm_compute. auto.
Defined.

(** C2, amended: for every sequence of resets and of [record] calls with
    indices in range, run on a freshly constructed table, after each
    operation [visitsSum[s][a]] is the sum over [s1] of
    [visits[s][a][s1]] in [unsigned long] arithmetic, for every [s < S]
    and [a < A], and [rewardsSum[s][a]] is the [double] sum, in the order of
    recording, of the rewards recorded for [(s, a)] since the last reset. *)
Theorem record_reset_invariant (S A : nat) (ops : list Op) :
  forallb (fun op => valid_op S A op && negb (is_import op)) ops = true ->
  let e := run ops (construct S A) in
  getS e = S /\ getA e = A /\ wf_Experience e = true
  /\ visits_consistent e
  /\ forall s a, (s < S)%nat -> (a < A)%nat -> getRewardSum e s a = recorded_total ops s a.
Proof.
  induction ops as [|op ops IH] using rev_ind; intros Hops e; subst e.
  - change (run [] (construct S A)) with (construct S A).
    split_and!; auto using construct_wf, construct_visits_consistent.
    intros s a _ _. apply construct_rewardsSum.
  - rewrite forallb_app, andb_true_iff in Hops. destruct Hops as [Hops Hop].
    simpl in Hop. rewrite andb_true_r, andb_true_iff, negb_true_iff in Hop.
    destruct Hop as [Hvalid Himp].
    destruct (IH Hops) as (HS & HA & Hwf & Hvis & Hrew). clear IH.
    rewrite run_snoc. set (e := run ops (construct S A)) in *.
    destruct op as [s a s1 rew| | |]; simpl in *; try discriminate.
    + rewrite !andb_true_iff, !Nat.ltb_lt in Hvalid. destruct Hvalid as [[Hs Ha] Hs1].
      rewrite <- HS in Hs, Hs1. rewrite <- HA in Ha.
      split_and!; auto using record_wf, record_visits_consistent.
      intros s' a' Hs' Ha'. rewrite recorded_total_snoc.
      destruct (decide (s = s' /\ a = a')) as [[<- <-]|Hne].
      * rewrite !Nat.eqb_refl. simpl. rewrite record_rewardSum by assumption.
        f_equal. now apply Hrew.
      * rewrite record_rewardSum_other by exact Hne.
        replace ((s =? s')%nat && (a =? a')%nat) with false; [now apply Hrew|].
        symmetry. apply andb_false_iff. rewrite !Nat.eqb_neq. lia.
    + split_and!; auto using reset_wf, reset_visits_consistent.
      intros s a _ _. rewrite recorded_total_snoc. apply reset_rewardsSum.
Qed.

Lemma record_reset_invariant_witness :
  getVisitsSum (run [OpRecord 0 0 1 one; OpRecord 0 0 1 one; OpRecord 0 0 0 (SFopp one)]
                  (construct 2 1)) 0 0 = 3
  /\ getRewardSum (run [OpRecord 0 0 1 one; OpRecord 0 0 1 one; OpRecord 0 0 0 (SFopp one)]
                     (construct 2 1)) 0 0 = one.
Proof.
  destruct (record_reset_invariant 2 1
              [OpRecord 0 0 1 one; OpRecord 0 0 1 one; OpRecord 0 0 0 (SFopp one)])
    as (_ & _ & _ & Hvis & Hrew); [reflexivity|].
  split.
  - rewrite (Hvis 0%nat 0%nat); [reflexivity | simpl; lia ..].
  - rewrite (Hrew 0%nat 0%nat); [reflexivity | lia ..].
Defined.

(** C2 as stated fails.  Recording 1.0 to one cell and then 2^53 and -2^53
    to its neighbour leaves [rewardsSum[0][0]] at 0 while the cells sum to
    1: the marginal rounds on the way.  And two bulk imports in a row leave
    [visitsSum[0][0]] at twice the sum of the row. *)
Lemma marginals_consistent_counterexample :
  ~ marginals_consistent
      (run [OpRecord 0 0 0 one; OpRecord 0 0 1 Double.two53; OpRecord 0 0 1 (SFopp Double.two53)]
         (construct 2 1))
  /\ ~ marginals_consistent
      (run [OpSetVisits (fun _ _ _ => 1); OpSetVisits (fun _ _ _ => 1)] (construct 1 1)).
Proof.
  split; intros Hc;
    destruct (Hc 0%nat 0%nat ltac:(simpl; lia) ltac:(simpl; lia)) as [Hv Hr];
    vm_compute in Hv, Hr; discriminate.
Qed.

(** C1: on a 1 x 1 x 1 table that has recorded one transition,
    [setVisits] with a container holding 5 leaves [visitsSum[0][0]] at 6,
    not at 5, and [setRewards] with a container holding 1.0 leaves
    [rewardsSum[0][0]] at 2.0, not at 1.0: the marginal is added to, not
    recomputed. *)
Theorem setVisits_accumulates :
  let e := record 0 0 0 one (construct 1 1) in
  getVisitsSum e 0 0 = 1
  /\ getVisits (setVisits (fun _ _ _ => 5) e) 0 0 0 = 5
  /\ getVisitsSum (setVisits (fun _ _ _ => 5) e) 0 0 = 6
  /\ getReward (setRewards (fun _ _ _ => one) e) 0 0 0 = one
  /\ getRewardSum (setRewards (fun _ _ _ => one) e) 0 0 = Double.add one one.
Proof. vm_compute. auto. Qed.

(** C3: on a 1 x 1 x 1 table that has recorded one transition, importing
    the table's own visits (rewards) leaves the visits (rewards) table as
    it was but doubles the marginal. *)
Theorem setVisits_same_contents_not_idempotent :
  let e := record 0 0 0 one (construct 1 1) in
  wf_Experience e = true
  /\ visits_ (setVisits (container_of 0 (visits_ e)) e) = visits_ e
  /\ visitsSum_ e = [[1]]
  /\ visitsSum_ (setVisits (container_of 0 (visits_ e)) e) = [[2]]
  /\ rewards_ (setRewards (container_of Double.zero (rewards_ e)) e) = rewards_ e
  /\ rewardsSum_ e = [[one]]
  /\ rewardsSum_ (setRewards (container_of Double.zero (rewards_ e)) e) = [[Double.add one one]].
Proof. vm_compute. auto 10. Qed.

(** C8: [setVisits] leaves [rewards], [rewardsSum], [S] and [A] as they
    were, and [setRewards] leaves [visits], [visitsSum], [S] and [A] as they
    were. *)
Theorem bulk_import_frame (v : nat -> nat -> nat -> Z) (r : nat -> nat -> nat -> double)
    (e : Experience) :
  (rewards_ (setVisits v e) = rewards_ e
   /\ rewardsSum_ (setVisits v e) = rewardsSum_ e
   /\ getS (setVisits v e) = getS e /\ getA (setVisits v e) = getA e)
  /\ (visits_ (setRewards r e) = visits_ e
   /\ visitsSum_ (setRewards r e) = visitsSum_ e
   /\ getS (setRewards r e) = getS e /\ getA (setRewards r e) = getA e).
Proof. split; split_and!; reflexivity. Qed.

(** * Further properties *)

(** ** copyTable3D *)

Lemma for_range_id {St : Type} (n : nat) (body : nat -> St -> St) (st : St) :
  (forall i st', body i st' = st') -> for_range n body st = st.
Proof.
  intros Hid. induction n as [|n IH]; [reflexivity|]. now rewrite for_range_S, Hid.
Qed.

Lemma for_range_preserves {St : Type} (Q : St -> Prop) (n : nat)
    (body : nat -> St -> St) (st : St) :
  Q st -> (forall i st', Q st' -> Q (body i st')) -> Q (for_range n body st).
Proof.
  intros H0 Hstep. induction n as [|n IH]; [exact H0|]. rewrite for_range_S. now apply Hstep.
Qed.

(** X1: after [copyTable3D(in, out, d1, d2, d3)] every cell of [out] with
    indices below the three dimensions holds the value of [in] at the same
    indices, every other cell holds what it held, no cell appears or
    disappears, and [out] keeps its extents. *)
Theorem copyTable3D_cells {T : Type} (inp : nat -> nat -> nat -> T)
    (out : list (list (list T))) (d1 d2 d3 : nat) :
  (forall i j k x, (i < d1)%nat -> (j < d2)%nat -> (k < d3)%nat ->
     at3 out i j k = Some x ->
     at3 (copyTable3D inp out d1 d2 d3) i j k = Some (inp i j k))
  /\ (forall i j k, ~ (i < d1 /\ j < d2 /\ k < d3)%nat ->
     at3 (copyTable3D inp out d1 d2 d3) i j k = at3 out i j k)
  /\ (forall i j k, at3 out i j k = None ->
     at3 (copyTable3D inp out d1 d2 d3) i j k = None)
  /\ (forall e1 e2 e3,
     shape3 e1 e2 e3 (copyTable3D inp out d1 d2 d3) = shape3 e1 e2 e3 out).
Proof.
  split_and!.
  - intros i j k x Hi Hj Hk Hx. rewrite at3_copyTable3D, decide_True, Hx by tauto. reflexivity.
  - intros i j k Hout. now rewrite at3_copyTable3D, decide_False.
  - intros i j k Hx. rewrite at3_copyTable3D, Hx. now case_decide.
  - intros. apply shape3_copyTable3D.
Qed.

(** X2: copying a container that holds a table [t] into any table of the
    same extents, with those extents as dimensions, yields [t]. *)
Theorem copyTable3D_same_shape {T : Type} (d : T) (t out : list (list (list T)))
    (d1 d2 d3 : nat) :
  shape3 d1 d2 d3 t = true -> shape3 d1 d2 d3 out = true ->
  copyTable3D (container_of d t) out d1 d2 d3 = t.
Proof.
  intros Ht Hout. apply (table3_eq d1 d2 d3); auto.
  - now rewrite shape3_copyTable3D.
  - intros i j k Hi Hj Hk. rewrite at3_copyTable3D, decide_True by tauto.
    destruct (at3_is_Some _ _ _ _ _ _ _ Hout Hi Hj Hk) as [y ->].
    destruct (at3_is_Some _ _ _ _ _ _ _ Ht Hi Hj Hk) as [x Hx].
    unfold container_of, read3. now rewrite Hx.
Qed.

Lemma copyTable3D_same_shape_witness :
  copyTable3D (container_of 0 [[[1; 2]]; [[3; 4]]]) [[[0; 0]]; [[0; 0]]] 2 1 2
  = [[[1; 2]]; [[3; 4]]].
Proof. apply copyTable3D_same_shape; reflexivity. Defined.

(** X3: with a dimension equal to zero [copyTable3D] writes nothing. *)
Theorem copyTable3D_empty {T : Type} (inp : nat -> nat -> nat -> T)
    (out : list (list (list T))) (d1 d2 d3 : nat) :
  d1 = 0%nat \/ d2 = 0%nat \/ d3 = 0%nat -> copyTable3D inp out d1 d2 d3 = out.
Proof.
  intros [-> | [-> | ->]]; unfold copyTable3D.
  - reflexivity.
  - apply for_range_id. reflexivity.
  - apply for_range_id. intros i st. apply for_range_id. reflexivity.
Qed.

Lemma copyTable3D_empty_witness :
  copyTable3D (fun _ _ _ => 7) [[[1; 2]]] 1 0 2 = [[[1; 2]]].
Proof. apply copyTable3D_empty. right; left; reflexivity. Defined.

(** ** The tolerance checks *)

Lemma sub_self_finite (x : double) : is_finite x = true -> sub x x = S754_zero false.
Proof.
  destruct x as [s|s| |s m e]; try discriminate; intros _.
  - now destruct s.
  - unfold sub, SFsub. now rewrite Z.sub_diag.
Qed.

Lemma sub_self_not_finite (x : double) : is_finite x = false -> sub x x = S754_nan.
Proof. destruct x as [s|s| |s m e]; try discriminate; intros _; [now destruct s | reflexivity]. Qed.

Lemma checkEqualGeneral_sym (a b : double) : checkEqualGeneral a b = checkEqualGeneral b a.
Proof.
  destruct (is_nan a) eqn:Ha.
  { rewrite !checkEqualGeneral_nan; auto using sub_nan_l, sub_nan_r. }
  destruct (is_nan b) eqn:Hb.
  { rewrite !checkEqualGeneral_nan; auto using sub_nan_l, sub_nan_r. }
  unfold checkEqualGeneral.
  rewrite (checkEqualSmall_sym b a), (fabs_sub_comm b a), (min_fabs_comm b a) by assumption.
  reflexivity.
Qed.

(** X4: [checkEqualSmall], [checkDifferentSmall] and
    [checkDifferentGeneral] do not depend on the order of their two
    arguments. *)
Theorem tolerance_checks_symmetric (a b : double) :
  checkEqualSmall a b = checkEqualSmall b a
  /\ checkDifferentSmall a b = checkDifferentSmall b a
  /\ checkDifferentGeneral a b = checkDifferentGeneral b a.
Proof.
  unfold checkDifferentSmall, checkDifferentGeneral.
  now rewrite (checkEqualSmall_sym a b), (checkEqualGeneral_sym a b).
Qed.

(** X5: [checkEqualSmall(x, x)] and [checkEqualGeneral(x, x)] are true
    exactly when [x] is finite: an infinity or a NaN is not equal to
    itself. *)
Theorem tolerance_checks_reflexive (x : double) :
  checkEqualSmall x x = is_finite x /\ checkEqualGeneral x x = is_finite x.
Proof.
  destruct (is_finite x) eqn:Hx.
  - assert (Hs : checkEqualSmall x x = true).
    { unfold checkEqualSmall. now rewrite sub_self_finite. }
    split; [exact Hs|]. unfold checkEqualGeneral. now rewrite Hs.
  - pose proof (sub_self_not_finite x Hx) as Hn. split.
    + unfold checkEqualSmall. now rewrite Hn.
    + now apply checkEqualGeneral_nan.
Qed.

(** X6: when either argument is an infinity or a NaN, both equality
    checks are false and both difference checks are true. *)
Theorem tolerance_checks_not_finite (a b : double) :
  is_finite a = false \/ is_finite b = false ->
  checkEqualSmall a b = false /\ checkEqualGeneral a b = false
  /\ checkDifferentSmall a b = true /\ checkDifferentGeneral a b = true.
Proof.
  assert (H : is_finite a = false \/ is_finite b = false ->
              checkEqualSmall a b = false /\ checkEqualGeneral a b = false).
  { intros [Ha|Hb]; destruct a as [sa|sa| |sa ma ea], b as [sb|sb| |sb mb eb];
      try discriminate; try (destruct sa); try (destruct sb); split; reflexivity. }
  intros Hnf. destruct (H Hnf) as [Hs Hg].
  unfold checkDifferentSmall, checkDifferentGeneral. now rewrite Hs, Hg.
Qed.

Lemma tolerance_checks_not_finite_witness :
  checkEqualGeneral (S754_infinity false) (S754_infinity false) = false
  /\ checkDifferentGeneral S754_nan one = true.
Proof.
  destruct (tolerance_checks_not_finite (S754_infinity false) (S754_infinity false))
    as (_ & Hg & _); [left; reflexivity|].
  destruct (tolerance_checks_not_finite S754_nan one) as (_ & _ & _ & Hd); [left; reflexivity|].
  exact (conj Hg Hd).
Defined.

(** X7: against a zero of either sign, in either argument position,
    [checkEqualGeneral] is the absolute check alone: it is true exactly
    when [|b| <= 5 * epsilon], for every double [b]. *)
Theorem checkEqualGeneral_against_zero (sz : bool) (b : double) :
  checkEqualGeneral (S754_zero sz) b = leb (fabs b) (mul five epsilon)
  /\ checkEqualGeneral b (S754_zero sz) = leb (fabs b) (mul five epsilon).
Proof.
  assert (H : checkEqualGeneral (S754_zero sz) b = leb (fabs b) (mul five epsilon)).
  { destruct b as [sb|sb| |sb mb eb].
    - destruct sz, sb; reflexivity.
    - destruct sb; reflexivity.
    - reflexivity.
    - unfold checkEqualGeneral, checkEqualSmall.
      change (fabs (sub (S754_zero sz) (S754_finite sb mb eb))) with (S754_finite false mb eb).
      change (fabs (S754_finite sb mb eb)) with (S754_finite false mb eb).
      destruct (leb (S754_finite false mb eb) (mul five epsilon)); reflexivity. }
  split; [exact H|]. now rewrite checkEqualGeneral_sym.
Qed.

(** ** veccmp and the vector operators *)

Lemma veccmp_from_range {T : Type} `{Ordered T} (a b : list T) (n i : nat) :
  veccmp_from a b i n = -1 \/ veccmp_from a b i n = 0 \/ veccmp_from a b i n = 1.
Proof.
  revert i. induction n as [|n IH]; intros i; simpl; [auto|].
  destruct (a !! i), (b !! i); auto.
  destruct (op_gt _ _); [auto|]. destruct (op_lt _ _); auto.
Qed.

(** X8: [veccmp] has no result exactly when the two sizes differ (the
    assertion fails); a result is -1, 0 or 1. *)
Theorem veccmp_result {T : Type} `{Ordered T} (a b : list T) :
  (veccmp a b = None <-> length a <> length b)
  /\ (forall r, veccmp a b = Some r -> r = -1 \/ r = 0 \/ r = 1).
Proof.
  unfold veccmp. destruct (Nat.eqb_spec (length a) (length b)) as [Heq|Hne]; split.
  - split; [discriminate | contradiction].
  - intros r [= <-]. apply veccmp_from_range.
  - split; auto.
  - discriminate.
Qed.

(** X9: on vectors of doubles of equal size [lhs < rhs] is [rhs > lhs],
    [<] and [>] are asymmetric, and no vector is less or greater than
    itself; on vectors of different sizes neither operator has a result. *)
Theorem Vector_operators :
  (forall a b : list double, length a = length b ->
     Vector_lt a b = Vector_gt b a
     /\ (Vector_lt a b = Some true -> Vector_lt b a = Some false)
     /\ (Vector_gt a b = Some true -> Vector_gt b a = Some false))
  /\ (forall v : list double, Vector_lt v v = Some false /\ Vector_gt v v = Some false)
  /\ (forall a b : list double, length a <> length b ->
     Vector_lt a b = None /\ Vector_gt a b = None).
Proof.
  split_and!.
  - intros a b Hlen. unfold Vector_lt, Vector_gt, veccmp.
    rewrite <- Hlen, Nat.eqb_refl. simpl.
    rewrite (veccmp_from_antisym a b (length a) 0).
    destruct (veccmp_from_range a b (length a) 0) as [-> | [-> | ->]];
      split_and!; try reflexivity; discriminate.
  - intros v. unfold Vector_lt, Vector_gt, veccmp. rewrite Nat.eqb_refl. simpl.
    now rewrite veccmp_from_refl.
  - intros a b Hne. unfold Vector_lt, Vector_gt, veccmp.
    apply Nat.eqb_neq in Hne. now rewrite Hne.
Qed.

Lemma Vector_operators_witness :
  Vector_lt [one; zero] [one; one] = Vector_gt [one; one] [one; zero]
  /\ Vector_lt [one; one] [one; zero] = Some false.
Proof.
  destruct Vector_operators as (Hab & _ & _).
  destruct (Hab [one; zero] [one; one] eq_refl) as (Heq & Hasym & _).
  split; [exact Heq | apply Hasym; reflexivity].
Defined.

Section VeccmpTotal.
Context {T : Type} `{TotalOrderLaws T}.

Lemma agree_at_eq (a b : list T) (j : nat) (x y : T) :
agree_at a b j -> a !! j = Some x -> b !! j = Some y -> x = y.
Proof.
intros Hag Hx Hy. destruct (Hag x y Hx Hy) as [Hgt Hlt].
rewrite op_gt_lt in Hgt.
destruct (op_eq x y) eqn:Heq; [now apply op_eq_true|].
pose proof (op_lt_total _ _ Hlt Heq). congruence.
Qed.

Lemma agree_at_same (a b : list T) (j : nat) :
(forall x y, a !! j = Some x -> b !! j = Some y -> x = y) -> agree_at a b j.
Proof.
intros Heq x y Hx Hy. rewrite (Heq x y Hx Hy). split.
- apply op_gt_irrefl.
- apply op_lt_irrefl.
Qed.

(** The result [-1], read both ways. *)
Lemma veccmp_less_elim (a b : list T) :
veccmp a b = Some (-1) ->
length a = length b /\
exists k x y, a !! k = Some x /\ b !! k = Some y /\
  (forall j, (j < k)%nat -> agree_at a b j) /\ op_lt x y = true.
Proof.
unfold veccmp. destruct (Nat.eqb_spec (length a) (length b)) as [Hlen|]; [|discriminate].
intros [= Hr]. split; [exact Hlen|].
destruct (veccmp_from_scan a b (length a) 0 ltac:(lia) Hlen)
  as [[Hr' _] | [[_ (k & x & y & _ & Hx & Hy & Hpre & Hlt)] | [Hr' _]]]; try congruence.
exists k, x, y. split_and!; auto. intros; apply Hpre; lia.
Qed.

Lemma veccmp_less_intro (a b : list T) (k : nat) (x y : T) :
length a = length b -> a !! k = Some x -> b !! k = Some y ->
(forall j, (j < k)%nat -> agree_at a b j) -> op_lt x y = true ->
veccmp a b = Some (-1).
Proof.
intros Hlen Hx Hy Hpre Hlt. unfold veccmp. rewrite Hlen, Nat.eqb_refl. f_equal.
rewrite <- Hlen.
assert (Hgt : op_gt x y = false) by (rewrite op_gt_lt; now apply op_lt_asym).
destruct (veccmp_from_scan a b (length a) 0 ltac:(lia) Hlen)
  as [[_ (k' & x' & y' & _ & Hx' & Hy' & Hpre' & Hgt')]
    | [[Hr _] | [_ Hall]]]; [exfalso| exact Hr | exfalso].
- destruct (lt_eq_lt_dec k' k) as [[Hlt'|Heq]|Hgt''].
  + destruct (Hpre k' Hlt' x' y' Hx' Hy'). congruence.
  + subst k'. congruence.
  + destruct (Hpre' k ltac:(lia) x y Hx Hy). congruence.
- destruct (Hall k ltac:(lia) x y Hx Hy). congruence.
Qed.
End VeccmpTotal.

(** X10: over an element type whose [==] is equality and whose [<] is a
    strict total order (the integer types), [veccmp] returns 0 exactly on
    equal vectors. *)
Theorem veccmp_zero_iff_equal {T : Type} `{TotalOrderLaws T} (a b : list T) :
  veccmp a b = Some 0 <-> a = b.
Proof.
  split.
  - unfold veccmp. destruct (Nat.eqb_spec (length a) (length b)) as [Hlen|]; [|discriminate].
    intros [= Hr].
    destruct (veccmp_from_scan a b (length a) 0 ltac:(lia) Hlen)
      as [[Hr' _] | [[Hr' _] | [_ Hall]]]; try congruence.
    apply (list_eq_same_length _ _ (length a)); auto.
    intros j x y _ Hx Hy. exact (agree_at_eq a b j x y (Hall j ltac:(lia)) Hx Hy).
  - intros <-. unfold veccmp. rewrite Nat.eqb_refl. f_equal. apply veccmp_from_refl.
Qed.

Lemma veccmp_zero_iff_equal_witness :
  veccmp [1; 2] [1; 2] = Some 0 <-> [1; 2] = [1; 2].
Proof. apply (veccmp_zero_iff_equal (T := Z)). Defined.

(** X11: over such an element type the order of [veccmp] is transitive:
    if [a] is less than [b] and [b] is less than [c], [a] is less than
    [c]. *)
Theorem veccmp_less_transitive {T : Type} `{TotalOrderLaws T} (a b c : list T) :
  veccmp a b = Some (-1) -> veccmp b c = Some (-1) -> veccmp a c = Some (-1).
Proof.
  intros (Hab & k1 & x1 & y1 & Hx1 & Hy1 & Hpre1 & Hlt1)%veccmp_less_elim
         (Hbc & k2 & y2 & z2 & Hy2 & Hz2 & Hpre2 & Hlt2)%veccmp_less_elim.
  assert (Hagree : forall j, (j < k1)%nat -> (j < k2)%nat -> agree_at a c j).
  { intros j Hj1 Hj2. apply agree_at_same. intros x z Hx Hz.
    destruct (lookup_lt_is_Some_2 b j) as [y Hy].
    { apply lookup_lt_Some in Hx. lia. }
    rewrite (agree_at_eq a b j x y (Hpre1 j Hj1) Hx Hy).
    exact (agree_at_eq b c j y z (Hpre2 j Hj2) Hy Hz). }
  destruct (lt_eq_lt_dec k1 k2) as [[Hlt|Heq]|Hgt].
  - destruct (lookup_lt_is_Some_2 c k1) as [z Hz].
    { apply lookup_lt_Some in Hy1. lia. }
    apply (veccmp_less_intro a c k1 x1 z ltac:(lia) Hx1 Hz).
    + intros j Hj. apply Hagree; lia.
    + now rewrite <- (agree_at_eq b c k1 y1 z (Hpre2 k1 Hlt) Hy1 Hz).
  - subst k2. rewrite Hy1 in Hy2. injection Hy2 as <-.
    apply (veccmp_less_intro a c k1 x1 z2 ltac:(lia) Hx1 Hz2).
    + intros j Hj. apply Hagree; lia.
    + eapply op_lt_trans; eauto.
  - destruct (lookup_lt_is_Some_2 a k2) as [x Hx].
    { apply lookup_lt_Some in Hy2. lia. }
    apply (veccmp_less_intro a c k2 x z2 ltac:(lia) Hx Hz2).
    + intros j Hj. apply Hagree; lia.
    + now rewrite (agree_at_eq a b k2 x y2 (Hpre1 k2 Hgt) Hx Hy2).
Qed.

Lemma veccmp_less_transitive_witness :
  veccmp [1; 2; 3] [1; 2; 4] = Some (-1) /\ veccmp [1; 2; 4] [1; 5; 0] = Some (-1)
  /\ veccmp [1; 2; 3] [1; 5; 0] = Some (-1).
Proof.
  split; [reflexivity|]. split; [reflexivity|].
  apply (veccmp_less_transitive [1; 2; 3] [1; 2; 4] [1; 5; 0]); reflexivity.
Defined.

Lemma ltb_nan_l (x : double) : Double.ltb S754_nan x = false.
Proof. reflexivity. Qed.

Lemma ltb_nan_r (x : double) : Double.ltb x S754_nan = false.
Proof. now destruct x. Qed.

Lemma ltb_irrefl (x : double) : Double.ltb x x = false.
Proof.
  destruct (Double.ltb x x) eqn:E; [|reflexivity].
  pose proof (ltb_asym x x E). congruence.
Qed.

Lemma veccmp_from_nan (a b : list double) (n i : nat) :
  (forall j x y, a !! j = Some x -> b !! j = Some y ->
     x = y \/ is_nan x = true \/ is_nan y = true) ->
  veccmp_from a b i n = 0.
Proof.
  intros Hsame. revert i. induction n as [|n IH]; intros i; [reflexivity|].
  cbn [veccmp_from].
  destruct (a !! i) as [x|] eqn:Hx; [|reflexivity].
  destruct (b !! i) as [y|] eqn:Hy; [|reflexivity].
  change (op_gt x y) with (Double.ltb y x). change (op_lt x y) with (Double.ltb x y).
  destruct (Hsame i x y Hx Hy) as [<- | [Hn | Hn]].
  - rewrite (ltb_irrefl x). apply IH.
  - destruct x; try discriminate. rewrite ltb_nan_l, ltb_nan_r. apply IH.
  - destruct y; try discriminate. rewrite ltb_nan_l, ltb_nan_r. apply IH.
Qed.

(** X12: on vectors of doubles [veccmp] passes over every index where one
    of the two elements is a NaN: two vectors of equal size that differ only
    at such indices compare as 0, and neither is less nor greater than the
    other. *)
Theorem veccmp_nan_blind (a b : list double) :
  length a = length b ->
  (forall j x y, a !! j = Some x -> b !! j = Some y ->
     x = y \/ is_nan x = true \/ is_nan y = true) ->
  veccmp a b = Some 0 /\ Vector_lt a b = Some false /\ Vector_gt a b = Some false.
Proof.
  intros Hlen Hsame. unfold Vector_lt, Vector_gt, veccmp.
  rewrite Hlen, Nat.eqb_refl. simpl. now rewrite veccmp_from_nan.
Qed.

Lemma veccmp_nan_blind_witness :
  veccmp [one; S754_nan; zero] [one; two53; zero] = Some 0.
Proof.
  apply (veccmp_nan_blind [one; S754_nan; zero] [one; two53; zero]); [reflexivity|].
  intros [|[|[|j]]] x y Hx Hy; simpl in Hx, Hy; try discriminate;
    injection Hx as <-; injection Hy as <-; auto.
Defined.

(** ** sequential_sorted_contains *)

(** X13: on any sequence, sorted or not, a true result of
    [sequential_sorted_contains] is never wrong: the sequence holds an
    element that is [==] to the target and not [<] it. *)
Theorem sequential_sorted_contains_sound {T : Type} `{Ordered T} (v : list T) (elem : T) :
  sequential_sorted_contains v elem = true ->
  exists x, x ∈ v /\ op_eq x elem = true /\ op_lt x elem = false.
Proof.
  induction v as [|e v IH]; simpl; [discriminate|].
  destruct (op_lt e elem) eqn:Hlt.
  - intros (x & Hin & Hx)%IH. exists x. split; [now right | exact Hx].
  - destruct (op_eq e elem) eqn:Heq; [|discriminate].
    intros _. exists e. split_and!; auto. left.
Qed.

Lemma sequential_sorted_contains_sound_witness :
  exists x, x ∈ [7; 1; 3] /\ op_eq x 7 = true /\ op_lt x 7 = false.
Proof. apply (sequential_sorted_contains_sound [7; 1; 3] 7). reflexivity. Defined.

(** X14: on doubles, [sequential_sorted_contains] never finds a NaN, and
    finds nothing in a sequence that begins with a NaN. *)
Theorem sequential_sorted_contains_nan :
  (forall v : list double, sequential_sorted_contains v S754_nan = false)
  /\ (forall (v : list double) (elem : double),
        sequential_sorted_contains (S754_nan :: v) elem = false).
Proof.
  split.
  - intros [|e v]; [reflexivity|]. simpl. unfold Double.ltb, Double.eqb, SFltb, SFeqb.
    now destruct e.
  - intros v elem. reflexivity.
Qed.

(** ** setVisits and setRewards, further *)

Lemma setVisits_row (e : Experience) (v : nat -> nat -> nat -> Z) (s a : nat) :
  wf_Experience e = true -> (s < getS e)%nat -> (a < getA e)%nat ->
  row3 (visits_ (setVisits v e)) s a = map (v s a) (seq 0 (getS e)).
Proof.
  intros Hwf Hs Ha. pose proof Hwf as (Hv & _)%wf_Experience_spec.
  rewrite <- (row3_read 0 (getS e) (getA e) (getS e)); auto.
  - apply map_ext_in. intros s1 Hin%in_seq.
    exact (setVisits_cell e Hwf s a Hs Ha v s1 ltac:(lia)).
  - simpl. now rewrite shape3_copyTable3D.
Qed.

Lemma setRewards_row (e : Experience) (r : nat -> nat -> nat -> double) (s a : nat) :
  wf_Experience e = true -> (s < getS e)%nat -> (a < getA e)%nat ->
  row3 (rewards_ (setRewards r e)) s a = map (r s a) (seq 0 (getS e)).
Proof.
  intros Hwf Hs Ha. pose proof Hwf as (_ & _ & Hr & _)%wf_Experience_spec.
  rewrite <- (row3_read Double.zero (getS e) (getA e) (getS e)); auto.
  - apply map_ext_in. intros s1 Hin%in_seq.
    exact (setRewards_cell e Hwf s a Hs Ha r s1 ltac:(lia)).
  - simpl. now rewrite shape3_copyTable3D.
Qed.




(** X16: on a well-formed table, after [setVisits] the marginal
    [visitsSum[s][a]] is its value before the call plus the sum over [s1]
    of the container's [v[s][a][s1]], in [unsigned long] arithmetic; after
    [setRewards] the marginal [rewardsSum[s][a]] is its value before the
    call with the container's [r[s][a][s1]] added to it one by one, by
    increasing [s1], in [double] arithmetic. *)
Theorem bulk_import_marginal (e : Experience) (s a : nat) :
  wf_Experience e = true -> (s < getS e)%nat -> (a < getA e)%nat ->
  (forall v, getVisitsSum (setVisits v e) s a =
     U64.add (getVisitsSum e s a) (sumU (map (v s a) (seq 0 (getS e)))))
  /\ (forall r, getRewardSum (setRewards r e) s a =
     foldl Double.add (getRewardSum e s a) (map (r s a) (seq 0 (getS e)))).
Proof.
  intros Hwf Hs Ha. split.
  - intros v. rewrite setVisits_visitsSum by assumption. now rewrite setVisits_row.
  - intros r. rewrite setRewards_rewardsSum by assumption. now rewrite setRewards_row.
Qed.

Lemma bulk_import_marginal_witness :
  getVisitsSum (setVisits (fun _ _ _ => 5) (record 0 0 0 one (construct 2 1))) 0 0 = 11.
Proof.
  destruct (bulk_import_marginal (record 0 0 0 one (construct 2 1)) 0 0) as (Hv & _);
    [reflexivity | simpl; lia ..|].
  rewrite Hv. reflexivity.
Defined.

Lemma copyTable3D_in_range (v : nat -> nat -> nat -> Z) (out : VisitTable) (d1 d2 d3 : nat) :
  (forall s a s1, U64.in_range (v s a s1) = true) ->
  forallb (forallb (forallb U64.in_range)) out = true ->
  forallb (forallb (forallb U64.in_range)) (copyTable3D v out d1 d2 d3) = true.
Proof.
  intros Hv Hout. unfold copyTable3D.
  apply (for_range_preserves (fun t => forallb (forallb (forallb U64.in_range)) t = true));
    [exact Hout|].
  intros i st Hst. apply for_range_preserves; [exact Hst|].
  intros j st' Hst'. apply for_range_preserves; [exact Hst'|].
  intros x st'' Hst''. unfold upd3, upd2.
  apply forallb_alter_true; [exact Hst''|]. intros plane Hp.
  apply forallb_alter_true; [exact Hp|]. intros row Hrow.
  apply forallb_alter_true; [exact Hrow|]. intros y _. apply Hv.
Qed.

Lemma marginal_loop_in_range (c : nat -> nat -> nat -> Z) (dS dA : nat) (m : VisitSumTable) :
  forallb (forallb U64.in_range) m = true ->
  forallb (forallb U64.in_range) (marginal_loop U64.add c dS dA m) = true.
Proof.
  intros Hm. unfold marginal_loop.
  apply (for_range_preserves (fun t => forallb (forallb U64.in_range) t = true)); [exact Hm|].
  intros s st Hst. apply for_range_preserves; [exact Hst|].
  intros a st' Hst'. apply for_range_preserves; [exact Hst'|].
  intros s1 st'' Hst''. unfold upd2.
  apply forallb_alter_true; [exact Hst''|]. intros row Hrow.
  apply forallb_alter_true; [exact Hrow|]. intros y _. apply in_range_add.
Qed.

Lemma setVisits_wf (v : nat -> nat -> nat -> Z) (e : Experience) :
  (forall s a s1, U64.in_range (v s a s1) = true) ->
  wf_Experience e = true -> wf_Experience (setVisits v e) = true.
Proof.
  intros Hv (H1 & H2 & H3 & H4 & H5 & H6)%wf_Experience_spec.
  apply wf_Experience_spec. rewrite setVisits_marginal_loop. simpl.
  rewrite shape3_copyTable3D, shape2_marginal_loop.
  split_and!; auto using copyTable3D_in_range, marginal_loop_in_range.
Qed.

Lemma setRewards_wf (r : nat -> nat -> nat -> double) (e : Experience) :
  wf_Experience e = true -> wf_Experience (setRewards r e) = true.
Proof.
  intros (H1 & H2 & H3 & H4 & H5 & H6)%wf_Experience_spec.
  apply wf_Experience_spec. rewrite setRewards_marginal_loop. simpl.
  rewrite shape3_copyTable3D, shape2_marginal_loop. split_and!; auto.
Qed.

(** X17: the bulk imports keep a table well-formed: the four tables keep
    their extents, and the counters stay 64-bit values when the imported
    visits are. *)
Theorem bulk_import_well_formed (e : Experience) :
  wf_Experience e = true ->
  (forall v, (forall s a s1, U64.in_range (v s a s1) = true) ->
     wf_Experience (setVisits v e) = true)
  /\ (forall r, wf_Experience (setRewards r e) = true).
Proof.
  intros Hwf. split.
  - intros v Hv. now apply setVisits_wf.
  - intros r. now apply setRewards_wf.
Qed.

Lemma bulk_import_well_formed_witness :
  wf_Experience (setRewards (fun _ _ _ => one) (construct 2 3)) = true.
Proof.
  destruct (bulk_import_well_formed (construct 2 3)) as [_ Hr]; [reflexivity|]. apply Hr.
Defined.

(** X18: on a well-formed table whose two marginal tables are zero, as
    after construction or a reset, [setRewards] followed by [setVisits]
    leaves both marginals equal to the sums over the last axis of the
    imported tables. *)
Theorem bulk_import_on_zero_marginals (e : Experience)
    (v : nat -> nat -> nat -> Z) (r : nat -> nat -> nat -> double) :
  wf_Experience e = true ->
  (forall s a, (s < getS e)%nat -> (a < getA e)%nat ->
     getVisitsSum e s a = 0 /\ getRewardSum e s a = Double.zero) ->
  marginals_consistent (setVisits v (setRewards r e)).
Proof.
  intros Hwf Hzero s a Hs Ha. simpl in Hs, Ha.
  destruct (Hzero s a Hs Ha) as [Hv0 Hr0].
  pose proof (setRewards_wf r e Hwf) as Hwf'. split.
  - apply setVisits_visitsSum_fresh; auto.
  - change (getRewardSum (setRewards r e) s a = sumD (row3 (rewards_ (setRewards r e)) s a)).
    now apply setRewards_rewardsSum_fresh.
Qed.

Lemma bulk_import_on_zero_marginals_witness :
  marginals_consistent
    (setVisits (fun _ _ _ => 1) (setRewards (fun _ _ _ => one) (construct 2 1))).
Proof.
  apply bulk_import_on_zero_marginals; [reflexivity|].
  intros s a Hs Ha. simpl in Hs, Ha.
  assert (a = 0%nat) as -> by lia.
  destruct s as [|[|s]]; [split; reflexivity .. | lia].
Defined.

(** X19: importing a well-formed table's own visits (rewards) leaves the
    visits (rewards) table as it is and adds the sum of each row to the
    row's marginal. *)
Theorem import_own_table (e : Experience) :
  wf_Experience e = true ->
  visits_ (setVisits (container_of 0 (visits_ e)) e) = visits_ e
  /\ rewards_ (setRewards (container_of Double.zero (rewards_ e)) e) = rewards_ e
  /\ (forall s a, (s < getS e)%nat -> (a < getA e)%nat ->
        getVisitsSum (setVisits (container_of 0 (visits_ e)) e) s a =
          U64.add (getVisitsSum e s a) (sumU (row3 (visits_ e) s a))
        /\ getRewardSum (setRewards (container_of Double.zero (rewards_ e)) e) s a =
          foldl Double.add (getRewardSum e s a) (row3 (rewards_ e) s a)).
Proof.
  intros Hwf. split_and!.
  - now apply setVisits_same_visits.
  - now apply setRewards_same_rewards.
  - intros s a Hs Ha. split.
    + rewrite setVisits_visitsSum by assumption. now rewrite setVisits_same_visits.
    + rewrite setRewards_rewardsSum by assumption. now rewrite setRewards_same_rewards.
Qed.

Lemma import_own_table_witness :
  visits_ (setVisits (container_of 0 (visits_ (record 0 0 1 one (construct 2 1))))
             (record 0 0 1 one (construct 2 1)))
  = visits_ (record 0 0 1 one (construct 2 1)).
Proof.
  destruct (import_own_table (record 0 0 1 one (construct 2 1))) as (Hv & _);
    [reflexivity | exact Hv].
Defined.
